(** * Audio recorder plugin (windows/runner/audio_recorder_plugin.cpp)

    A shallow embedding of [AudioRecorderPlugin]: the method-channel
    dispatcher, [StartRecording], [StopRecording], [IsRecording] and the
    capture/encode worker [RecordingThread], over an explicit model of the
    Media Foundation calls the worker makes.

    The platform is a test double: a record that fixes the HRESULT and the
    out-parameters of every call.  The plugin's fields are a record that is
    threaded through the code; a ghost log records every platform call,
    every COM reference taken or dropped, every read of [stop_requested_]
    by the loop condition and every store to [is_recording_].

    Left out: the text written to [std::cout] and [std::cerr], the
    [MFStartup]/[MFShutdown] pair of the constructor and destructor, and
    the memory of the device array that [CoTaskMemFree] returns (only the
    COM objects in it are tracked).  A pull that never returns is not
    modelled: every [ReadSample] answers. *)

From Stdlib Require Import ZArith List String Bool Lia.
Import ListNotations.
Local Open Scope string_scope.
Local Open Scope Z_scope.
Local Open Scope list_scope.

(** ** Windows SDK vocabulary *)

Definition HRESULT := Z.
Definition DWORD := Z.
Definition S_OK : HRESULT := 0.
Definition E_FAIL : HRESULT := -2147467259.   (* 0x80004005 as a signed 32-bit value *)

(** winerror.h: [#define FAILED(hr) (((HRESULT)(hr)) < 0)] and
    [#define SUCCEEDED(hr) (((HRESULT)(hr)) >= 0)]. *)
Definition FAILED (hr : HRESULT) : bool := hr <? 0.
Definition SUCCEEDED (hr : HRESULT) : bool := 0 <=? hr.

(** mfreadwrite.h, [MF_SOURCE_READER_FLAG]. *)
Definition MF_SOURCE_READERF_ENDOFSTREAM : DWORD := 2.

(** Attribute keys and GUID values the plugin uses. *)
Inductive attr : Type :=
| MF_DEVSOURCE_ATTRIBUTE_SOURCE_TYPE
| MF_READWRITE_ENABLE_HARDWARE_TRANSFORMS
| MF_MT_MAJOR_TYPE
| MF_MT_SUBTYPE
| MF_MT_AUDIO_BITS_PER_SAMPLE
| MF_MT_AUDIO_SAMPLES_PER_SECOND
| MF_MT_AUDIO_NUM_CHANNELS
| MF_MT_AUDIO_AVG_BYTES_PER_SECOND.

Inductive guid : Type :=
| MF_DEVSOURCE_ATTRIBUTE_SOURCE_TYPE_AUDCAP_GUID
| MFMediaType_Audio
| MFAudioFormat_PCM
| MFAudioFormat_AAC.

Inductive attr_value : Type :=
| VGuid (g : guid)
| VUInt32 (n : Z).

Definition attr_eqb (a b : attr) : bool :=
  match a, b with
  | MF_DEVSOURCE_ATTRIBUTE_SOURCE_TYPE, MF_DEVSOURCE_ATTRIBUTE_SOURCE_TYPE
  | MF_READWRITE_ENABLE_HARDWARE_TRANSFORMS, MF_READWRITE_ENABLE_HARDWARE_TRANSFORMS
  | MF_MT_MAJOR_TYPE, MF_MT_MAJOR_TYPE
  | MF_MT_SUBTYPE, MF_MT_SUBTYPE
  | MF_MT_AUDIO_BITS_PER_SAMPLE, MF_MT_AUDIO_BITS_PER_SAMPLE
  | MF_MT_AUDIO_SAMPLES_PER_SECOND, MF_MT_AUDIO_SAMPLES_PER_SECOND
  | MF_MT_AUDIO_NUM_CHANNELS, MF_MT_AUDIO_NUM_CHANNELS
  | MF_MT_AUDIO_AVG_BYTES_PER_SECOND, MF_MT_AUDIO_AVG_BYTES_PER_SECOND => true
  | _, _ => false
  end.

(** An [IMFMediaType] is an attribute store: the keys in the order they were
    first set, each with its latest value. *)
Definition MediaType := list (attr * attr_value).

Fixpoint set_attr (k : attr) (v : attr_value) (t : MediaType) : MediaType :=
  match t with
  | [] => [(k, v)]
  | (k', v') :: rest =>
      if attr_eqb k k' then (k, v) :: rest else (k', v') :: set_attr k v rest
  end.

Fixpoint get_attr (k : attr) (t : MediaType) : option attr_value :=
  match t with
  | [] => None
  | (k', v) :: rest => if attr_eqb k k' then Some v else get_attr k rest
  end.

(** A wide string, as UTF-16 code units. *)
Definition wstring := list Z.

(** An [IMFSample] is opaque to the plugin; it is named by a number. *)
Definition Sample := Z.

(** ** COM objects, calls and the ghost log *)

(** The COM objects [RecordingThread] holds a reference to; the names are
    those of the C++ variables that hold them. *)
Inductive resource : Type :=
| pAttributes
| ppDevices (i : nat)
| pSource
| SourceReader          (* held by the field source_reader_ *)
| pAudioType
| pActualType
| pSinkAttributes
| SinkWriter            (* held by the field sink_writer_ *)
| pOutputType
| pSample (n : nat).    (* the sample the n-th ReadSample returned *)

Definition resource_eqb (a b : resource) : bool :=
  match a, b with
  | pAttributes, pAttributes | pSource, pSource | SourceReader, SourceReader
  | pAudioType, pAudioType | pActualType, pActualType
  | pSinkAttributes, pSinkAttributes | SinkWriter, SinkWriter
  | pOutputType, pOutputType => true
  | ppDevices i, ppDevices j => Nat.eqb i j
  | pSample i, pSample j => Nat.eqb i j
  | _, _ => false
  end.

(** The platform calls, with the arguments that matter to the claims. *)
Inductive api : Type :=
| MFCreateAttributes (out : resource)
| SetGUID (obj : resource) (key : attr) (value : guid)
| SetUINT32 (obj : resource) (key : attr) (value : Z)
| MFEnumDeviceSources
| ActivateObject (device : nat)
| MFCreateSourceReaderFromMediaSource
| MFCreateMediaType (out : resource)
| SetCurrentMediaType (type : MediaType)
| GetCurrentMediaType
| MFCreateSinkWriterFromURL (url : wstring) (with_attributes : bool)
| AddStream (type : MediaType)
| SetInputMediaType (streamIndex : DWORD) (type : MediaType)
| BeginWriting
| ReadSample (n : nat)                                  (* the n-th pull *)
| WriteSample (n : nat) (streamIndex : DWORD) (s : Sample)  (* the n-th push *)
| Finalize.

Inductive event : Type :=
| Call (a : api) (hr : HRESULT)
| Acquire (r : resource)
| Release (r : resource)
| StopFlagRead (observed : bool)
| StoreIsRecording (b : bool).

(** The platform double: what every call answers. *)
Record Platform : Type := mkPlatform {
  hresult : api -> HRESULT;
  deviceCount : nat;                       (* UINT32 out of MFEnumDeviceSources *)
  actual_type : MediaType;                 (* out of GetCurrentMediaType *)
  stream_index : DWORD;                    (* out of AddStream *)
  read_flags : nat -> DWORD;               (* dwFlags out of the n-th ReadSample *)
  read_sample : nat -> option Sample;      (* pSample out of the n-th ReadSample *)
  MultiByteToWideChar : string -> wstring  (* CP_UTF8 conversion *)
}.

(** ** The plugin object *)

(** [recording_thread_]: a [std::thread] that is not joinable (default
    constructed, or joined), or a worker at one of its three control points.
    The worker's locals that live across loop iterations are kept with it. *)
Inductive thread : Type :=
| NotJoinable
| Launched                                          (* RecordingThread not yet entered *)
| AtLoopHead (streamIndex : DWORD) (reads writes : nat)  (* at [while (!stop_requested_)] *)
| Finished.                                         (* RecordingThread has returned *)

Definition joinable (t : thread) : bool :=
  match t with NotJoinable => false | _ => true end.

Record plugin : Type := mkPlugin {
  current_file_path_ : string;
  is_recording_ : bool;
  stop_requested_ : bool;
  recording_thread_ : thread;
  source_reader_ : option resource;      (* None is nullptr *)
  sink_writer_ : option resource
}.

(** The object as the constructor leaves it (audio_recorder_plugin.h:45-51). *)
Definition new_plugin : plugin :=
  mkPlugin "" false false NotJoinable None None.

Definition set_current_file_path (v : string) (p : plugin) : plugin :=
  mkPlugin v (is_recording_ p) (stop_requested_ p) (recording_thread_ p)
           (source_reader_ p) (sink_writer_ p).
Definition set_is_recording (v : bool) (p : plugin) : plugin :=
  mkPlugin (current_file_path_ p) v (stop_requested_ p) (recording_thread_ p)
           (source_reader_ p) (sink_writer_ p).
Definition set_stop_requested (v : bool) (p : plugin) : plugin :=
  mkPlugin (current_file_path_ p) (is_recording_ p) v (recording_thread_ p)
           (source_reader_ p) (sink_writer_ p).
Definition set_recording_thread (v : thread) (p : plugin) : plugin :=
  mkPlugin (current_file_path_ p) (is_recording_ p) (stop_requested_ p) v
           (source_reader_ p) (sink_writer_ p).
Definition set_source_reader (v : option resource) (p : plugin) : plugin :=
  mkPlugin (current_file_path_ p) (is_recording_ p) (stop_requested_ p)
           (recording_thread_ p) v (sink_writer_ p).
Definition set_sink_writer (v : option resource) (p : plugin) : plugin :=
  mkPlugin (current_file_path_ p) (is_recording_ p) (stop_requested_ p)
           (recording_thread_ p) (source_reader_ p) v.

(** The plugin together with the ghost log (oldest event first). *)
Record world : Type := mkWorld {
  plug : plugin;
  log : list event
}.

Definition new_world : world := mkWorld new_plugin [].

(** ** A small monad for the body of [RecordingThread]

    A computation reads and updates the world; [None] as its result means a
    [return;] statement was executed, which skips the rest of the body. *)
Module Run.

Definition t (A : Type) : Type := world -> option A * world.

Definition ret {A} (a : A) : t A := fun w => (Some a, w).

Definition bind {A B} (c : t A) (k : A -> t B) : t B :=
  fun w => match c w with
           | (Some a, w') => k a w'
           | (None, w') => (None, w')
           end.

(** [return;] *)
Definition leave {A} : t A := fun w => (None, w).

Definition emit (e : event) : t unit :=
  fun w => (Some tt, mkWorld (plug w) (log w ++ [e])).

Definition get {A} (f : plugin -> A) : t A := fun w => (Some (f (plug w)), w).

Definition update (f : plugin -> plugin) : t unit :=
  fun w => (Some tt, mkWorld (f (plug w)) (log w)).

Definition when (b : bool) (c : t unit) : t unit := if b then c else ret tt.

End Run.

Declare Scope run_scope.
Delimit Scope run_scope with run.
Notation "x <- c ;; k" := (Run.bind c (fun x => k))
  (at level 61, c at next level, right associativity) : run_scope.
Notation "c ;; k" := (Run.bind c (fun _ => k))
  (at level 61, right associativity) : run_scope.
Local Open Scope run_scope.

Section Worker.

Variable pf : Platform.

(** A platform call: logged with the HRESULT the platform answers. *)
Definition call (a : api) : Run.t HRESULT :=
  let hr := hresult pf a in
  Run.emit (Call a hr) ;; Run.ret hr.

(** A call that hands out a COM object when it succeeds. *)
Definition create (a : api) (r : resource) : Run.t HRESULT :=
  hr <- call a ;;
  Run.when (SUCCEEDED hr) (Run.emit (Acquire r)) ;;
  Run.ret hr.

(** [p->Release()] *)
Definition release (r : resource) : Run.t unit := Run.emit (Release r).

(** [is_recording_ = b;] *)
Definition store_is_recording (b : bool) : Run.t unit :=
  Run.update (set_is_recording b) ;; Run.emit (StoreIsRecording b).

(** [if (cond) { cleanup; is_recording_ = false; return; }] *)
Definition bail_if (cond : bool) (cleanup : Run.t unit) : Run.t unit :=
  if cond then (cleanup ;; store_is_recording false ;; Run.leave)
  else Run.ret tt.

(** [if (SUCCEEDED(hr)) { hr = obj->Set...(key, value); }] on a media type
    under construction, whose contents are tracked next to [hr]. *)
Definition set_if_ok (obj : resource) (key : attr) (value : attr_value)
           (st : HRESULT * MediaType) : Run.t (HRESULT * MediaType) :=
  let '(hr, ty) := st in
  if SUCCEEDED hr then
    hr' <- call (match value with
                 | VGuid g => SetGUID obj key g
                 | VUInt32 n => SetUINT32 obj key n
                 end) ;;
    Run.ret (hr', if SUCCEEDED hr' then set_attr key value ty else ty)
  else Run.ret st.

(** [StringToWString] (audio_recorder_plugin.cpp:9-15). *)
Definition StringToWString (str : string) : wstring :=
  if String.eqb str "" then [] else MultiByteToWideChar pf str.

(** [w.c_str()] as the callee of a [LPCWSTR] parameter reads it: the code
    units before the first NUL.  The conversion above is made with the
    length of the string, so a NUL inside the path is converted like any
    other character and ends the file name here. *)
Fixpoint c_str (w : wstring) : wstring :=
  match w with
  | [] => []
  | c :: rest => if c =? 0 then [] else c :: c_str rest
  end.

End Worker.

(** ** [AudioRecorderPlugin::RecordingThread] (audio_recorder_plugin.cpp:140-378) *)

(** Why the recording loop was left. *)
Inductive loop_exit : Type :=
| StopRequested     (* the loop condition saw stop_requested_ *)
| ReadFailed        (* line 342 *)
| EndOfStream       (* line 347 *)
| WriteFailed.      (* line 356 *)

Section RecordingThread.

Variable pf : Platform.

Definition emit_all (es : list event) : Run.t unit :=
  fun w => (Some tt, mkWorld (plug w) (log w ++ es)).

(** The [IMFActivate] objects of the enumerated devices. *)
Definition devices : list resource := map ppDevices (seq 0 (deviceCount pf)).

(** [source_reader_->Release(); source_reader_ = nullptr;] *)
Definition drop_source_reader : Run.t unit :=
  release SourceReader ;; Run.update (set_source_reader None).

(** [sink_writer_->Release(); sink_writer_ = nullptr;] *)
Definition drop_sink_writer : Run.t unit :=
  release SinkWriter ;; Run.update (set_sink_writer None).

(** Lines 141-324, everything before the recording loop, block by block
    as the source comments divide it.  [Run.leave] inside [bail_if] is
    one of the twelve [return;] statements. *)

(** Lines 147-188: enumerate the capture devices and activate the first. *)
Definition select_device : Run.t unit :=
  (* 148: create attributes for audio capture device enumeration *)
  hr <- create pf (MFCreateAttributes pAttributes) pAttributes ;;
  bail_if (FAILED hr) (Run.ret tt) ;;
  (* 156: request audio capture devices *)
  hr <- call pf (SetGUID pAttributes MF_DEVSOURCE_ATTRIBUTE_SOURCE_TYPE
                         MF_DEVSOURCE_ATTRIBUTE_SOURCE_TYPE_AUDCAP_GUID) ;;
  bail_if (FAILED hr) (release pAttributes) ;;
  (* 166: enumerate audio capture devices *)
  hr <- call pf MFEnumDeviceSources ;;
  Run.when (SUCCEEDED hr) (emit_all (map Acquire devices)) ;;
  release pAttributes ;;
  bail_if (FAILED hr || (deviceCount pf =? 0)%nat) (Run.ret tt) ;;
  (* 176: activate the first audio device, release the device list *)
  hr <- create pf (ActivateObject 0) pSource ;;
  emit_all (map Release devices) ;;
  bail_if (FAILED hr) (Run.ret tt).

(** Lines 190-198: create the source reader. *)
Definition open_source : Run.t unit :=
  hr <- create pf MFCreateSourceReaderFromMediaSource SourceReader ;;
  Run.when (SUCCEEDED hr) (Run.update (set_source_reader (Some SourceReader))) ;;
  release pSource ;;
  bail_if (FAILED hr) (Run.ret tt).

(** Lines 200-234: ask the reader for PCM, then get the actual format. *)
Definition negotiate_format : Run.t unit :=
  hr <- create pf (MFCreateMediaType pAudioType) pAudioType ;;
  let audio_created := SUCCEEDED hr in
  st <- set_if_ok pf pAudioType MF_MT_MAJOR_TYPE (VGuid MFMediaType_Audio) (hr, []) ;;
  st <- set_if_ok pf pAudioType MF_MT_SUBTYPE (VGuid MFAudioFormat_PCM) st ;;
  hr <- (if SUCCEEDED (fst st) then call pf (SetCurrentMediaType (snd st))
         else Run.ret (fst st)) ;;
  Run.when audio_created (release pAudioType) ;;
  bail_if (FAILED hr) drop_source_reader ;;
  (* 227: get the actual format *)
  hr <- create pf GetCurrentMediaType pActualType ;;
  bail_if (FAILED hr) drop_source_reader.

(** Lines 236-257: create the sink writer on [current_file_path_]. *)
Definition open_sink : Run.t unit :=
  path <- Run.get current_file_path_ ;;
  let wpath := StringToWString pf path in
  hr_attr <- create pf (MFCreateAttributes pSinkAttributes) pSinkAttributes ;;
  let sink_attributes := SUCCEEDED hr_attr in
  Run.when sink_attributes
    (_ <- call pf (SetUINT32 pSinkAttributes
                             MF_READWRITE_ENABLE_HARDWARE_TRANSFORMS 1) ;;
     Run.ret tt) ;;
  (* 245: MFCreateSinkWriterFromURL(wpath.c_str(), nullptr, pSinkAttributes, ...) *)
  hr <- create pf (MFCreateSinkWriterFromURL (c_str wpath) sink_attributes)
                  SinkWriter ;;
  Run.when (SUCCEEDED hr) (Run.update (set_sink_writer (Some SinkWriter))) ;;
  Run.when sink_attributes (release pSinkAttributes) ;;
  bail_if (FAILED hr) (release pActualType ;; drop_source_reader).

(** Lines 259-312: build the AAC output type, add the stream, set the
    sink's input type.  The result is the local [streamIndex]. *)
Definition register_stream : Run.t DWORD :=
  hr <- create pf (MFCreateMediaType pOutputType) pOutputType ;;
  let output_created := SUCCEEDED hr in
  st <- set_if_ok pf pOutputType MF_MT_MAJOR_TYPE (VGuid MFMediaType_Audio) (hr, []) ;;
  st <- set_if_ok pf pOutputType MF_MT_SUBTYPE (VGuid MFAudioFormat_AAC) st ;;
  st <- set_if_ok pf pOutputType MF_MT_AUDIO_BITS_PER_SAMPLE (VUInt32 16) st ;;
  st <- set_if_ok pf pOutputType MF_MT_AUDIO_SAMPLES_PER_SECOND (VUInt32 44100) st ;;
  st <- set_if_ok pf pOutputType MF_MT_AUDIO_NUM_CHANNELS (VUInt32 1) st ;;
  st <- set_if_ok pf pOutputType MF_MT_AUDIO_AVG_BYTES_PER_SECOND (VUInt32 16000) st ;;
  (* 281: DWORD streamIndex = 0; *)
  r <- (if SUCCEEDED (fst st) then
          hr <- call pf (AddStream (snd st)) ;;
          Run.ret (hr, if SUCCEEDED hr then stream_index pf else 0)
        else Run.ret (fst st, 0)) ;;
  let '(hr, streamIndex) := r in
  Run.when output_created (release pOutputType) ;;
  bail_if (FAILED hr)
    (release pActualType ;; drop_sink_writer ;; drop_source_reader) ;;
  (* 301: set input type on sink writer *)
  hr <- call pf (SetInputMediaType streamIndex (actual_type pf)) ;;
  release pActualType ;;
  bail_if (FAILED hr) (drop_sink_writer ;; drop_source_reader) ;;
  Run.ret streamIndex.

(** Lines 314-324. *)
Definition begin_writing : Run.t unit :=
  hr <- call pf BeginWriting ;;
  bail_if (FAILED hr) (drop_sink_writer ;; drop_source_reader).

Definition setup : Run.t DWORD :=
  select_device ;;
  open_source ;;
  negotiate_format ;;
  open_sink ;;
  streamIndex <- register_stream ;;
  begin_writing ;;
  Run.ret streamIndex.

(** Lines 329-361: the loop condition and one pass through the body, for
    the [i]-th pull and the [j]-th push.  [inl] is the next pair of
    counters (back to the loop head), [inr] leaves the loop. *)
Definition iteration (streamIndex : DWORD) (i j : nat)
  : Run.t (nat * nat + loop_exit) :=
  stop <- Run.get stop_requested_ ;;
  Run.emit (StopFlagRead stop) ;;
  if stop then Run.ret (inr StopRequested) else
  hr <- call pf (ReadSample i) ;;
  let dwFlags := read_flags pf i in
  let sample := read_sample pf i in
  Run.when (match sample with Some _ => true | None => false end)
           (Run.emit (Acquire (pSample i))) ;;
  if FAILED hr then Run.ret (inr ReadFailed) else
  if negb (Z.land dwFlags MF_SOURCE_READERF_ENDOFSTREAM =? 0)
  then Run.ret (inr EndOfStream) else
  match sample with
  | Some s =>
      hr <- call pf (WriteSample j streamIndex s) ;;
      release (pSample i) ;;
      if FAILED hr then Run.ret (inr WriteFailed)
      else Run.ret (inl (S i, S j))
  | None => Run.ret (inl (S i, j))
  end.

(** Lines 365-375: what follows the loop. *)
Definition after_loop : Run.t unit :=
  sw <- Run.get sink_writer_ ;;
  match sw with
  | Some r => _ <- call pf Finalize ;; release r ;; Run.update (set_sink_writer None)
  | None => Run.ret tt
  end ;;
  sr <- Run.get source_reader_ ;;
  match sr with
  | Some r => release r ;; Run.update (set_source_reader None)
  | None => Run.ret tt
  end.

Definition at_point (t : thread) (w : world) : world :=
  mkWorld (set_recording_thread t (plug w)) (log w).

(** One scheduling quantum of the worker: from its entry to the loop head
    or to its return, or from the loop head once round the loop or out of
    it and to its return.  Within a quantum the worker touches the shared
    flags once ([stop_requested_] is read first thing in an iteration,
    [is_recording_] is written last thing before a [return;]), so taking
    a quantum as atomic loses no interleaving with the control thread. *)
Definition worker_step (w : world) : world :=
  match recording_thread_ (plug w) with
  | Launched =>
      match setup w with
      | (Some streamIndex, w') => at_point (AtLoopHead streamIndex 0 0) w'
      | (None, w') => at_point Finished w'
      end
  | AtLoopHead streamIndex i j =>
      match iteration streamIndex i j w with
      | (Some (inl (i', j')), w') => at_point (AtLoopHead streamIndex i' j') w'
      | (_, w') => at_point Finished (snd (after_loop w'))
      end
  | NotJoinable | Finished => w
  end.

Definition worker_steps (k : nat) (w : world) : world :=
  Nat.iter k worker_step w.

End RecordingThread.

(** ** The control surface (audio_recorder_plugin.cpp:52-138) *)

(** What a call on the control thread comes to. *)
Inductive outcome (A : Type) : Type :=
| Returns (a : A)
| Terminates      (* std::terminate: a joinable std::thread was assigned to *)
| Blocked.        (* join() has not returned within the given number of worker quanta *)
Arguments Returns {A} a.
Arguments Terminates {A}.
Arguments Blocked {A}.

(** [flutter::EncodableValue], as far as the dispatcher looks into it. *)
#[local] Unset Elimination Schemes.
Inductive EncodableValue : Type :=
| EncNull
| EncBool (b : bool)
| EncInt (n : Z)
| EncString (s : string)
| EncList (l : list EncodableValue)
| EncMap (m : list (EncodableValue * EncodableValue)).
#[local] Set Elimination Schemes.

Inductive MethodResult : Type :=
| Success (v : EncodableValue)
| Error (code message : string)
| NotImplemented.

Section ControlSurface.

Variable pf : Platform.

(** Lines 93-98. *)
Definition HasPermission : bool := true.

(** Lines 100-115. *)
Definition StartRecording (path : string) (w : world) : outcome (bool * world) :=
  if is_recording_ (plug w) then Returns (false, w)
  else
    let p := set_is_recording true
               (set_stop_requested false
                  (set_current_file_path path (plug w))) in
    let w' := mkWorld p (log w ++ [StoreIsRecording true]) in
    (* 111: recording_thread_ = std::thread(...) *)
    if joinable (recording_thread_ p) then Terminates
    else Returns (true, at_point Launched w').

(** [recording_thread_.join()]: the worker runs until it has returned. *)
Fixpoint join (fuel : nat) (w : world) : option world :=
  match recording_thread_ (plug w) with
  | Finished => Some (at_point NotJoinable w)
  | NotJoinable => Some w
  | _ => match fuel with
         | O => None
         | S fuel' => join fuel' (worker_step pf w)
         end
  end.

(** Lines 117-134. *)
Definition StopRecording (fuel : nat) (w : world) : outcome (string * world) :=
  if negb (is_recording_ (plug w)) then Returns ("", w)
  else
    let w1 := mkWorld (set_stop_requested true (plug w)) (log w) in
    match (if joinable (recording_thread_ (plug w1)) then join fuel w1
           else Some w1) with
    | None => Blocked
    | Some w2 =>
        let p3 := set_is_recording false (plug w2) in
        let path := current_file_path_ p3 in
        Returns (path, mkWorld (set_current_file_path "" p3)
                               (log w2 ++ [StoreIsRecording false]))
    end.

(** Lines 136-138. *)
Definition IsRecording (w : world) : bool := is_recording_ (plug w).

(** [args->find(EncodableValue("path"))] on the argument map. *)
Fixpoint find_path (m : list (EncodableValue * EncodableValue))
  : option EncodableValue :=
  match m with
  | [] => None
  | (EncString k, v) :: rest => if String.eqb k "path" then Some v else find_path rest
  | _ :: rest => find_path rest
  end.

(** Lines 52-91.  [arguments] is [None] for a null argument pointer. *)
Definition HandleMethodCall (fuel : nat) (method : string)
           (arguments : option EncodableValue) (w : world)
  : outcome (MethodResult * world) :=
  if String.eqb method "hasPermission" then
    Returns (Success (EncBool HasPermission), w)
  else if String.eqb method "startRecording" then
    let invalid := Returns (Error "INVALID_ARGS" "Path is required", w) in
    match arguments with
    | Some (EncMap args) =>
        match find_path args with
        | Some (EncString path) =>
            match StartRecording path w with
            | Returns (success, w') => Returns (Success (EncBool success), w')
            | Terminates => Terminates
            | Blocked => Blocked
            end
        | _ => invalid
        end
    | _ => invalid
    end
  else if String.eqb method "stopRecording" then
    match StopRecording fuel w with
    | Returns (path, w') =>
        if negb (String.eqb path "") then Returns (Success (EncString path), w')
        else Returns (Error "NO_RECORDER" "No active recording", w')
    | Terminates => Terminates
    | Blocked => Blocked
    end
  else if String.eqb method "isRecording" then
    Returns (Success (EncBool (IsRecording w)), w)
  else Returns (NotImplemented, w).

End ControlSurface.

(** * Vocabulary of the properties *)

(** ** Reading the log *)

(** The calls that open, configure or drive the source and the sink; the
    calls that build attribute stores and media types are auxiliary. *)
Definition principal (a : api) : bool :=
  match a with
  | MFCreateAttributes _ | SetGUID _ _ _ | SetUINT32 _ _ _
  | MFCreateMediaType _ => false
  | _ => true
  end.

Fixpoint principal_calls (es : list event) : list api :=
  match es with
  | [] => []
  | Call a _ :: rest =>
      if principal a then a :: principal_calls rest else principal_calls rest
  | _ :: rest => principal_calls rest
  end.

Fixpoint remove_first (r : resource) (held : list resource) : list resource :=
  match held with
  | [] => []
  | r' :: rest => if resource_eqb r r' then rest else r' :: remove_first r rest
  end.

(** The COM references held after the events [es], given those held
    before, in the order they were taken. *)
Fixpoint live_from (held : list resource) (es : list event) : list resource :=
  match es with
  | [] => held
  | Acquire r :: rest => live_from (held ++ [r]) rest
  | Release r :: rest => live_from (remove_first r held) rest
  | _ :: rest => live_from held rest
  end.

Definition live (es : list event) : list resource := live_from [] es.

Fixpoint is_prefix (l1 l2 : list api) : Prop :=
  match l1, l2 with
  | [], _ => True
  | a :: l1', b :: l2' => a = b /\ is_prefix l1' l2'
  | _ :: _, [] => False
  end.

(** ** The steps of the setup and their order *)

Inductive stage : Type :=
| DeviceSelection | SourceOpen | FormatNegotiation | SinkOpen
| StreamRegistration | BeginWritingStage | Capture | Teardown.

Definition stage_of (a : api) : option stage :=
  match a with
  | MFEnumDeviceSources | ActivateObject _ => Some DeviceSelection
  | MFCreateSourceReaderFromMediaSource => Some SourceOpen
  | SetCurrentMediaType _ | GetCurrentMediaType => Some FormatNegotiation
  | MFCreateSinkWriterFromURL _ _ => Some SinkOpen
  | AddStream _ | SetInputMediaType _ _ => Some StreamRegistration
  | BeginWriting => Some BeginWritingStage
  | ReadSample _ | WriteSample _ _ _ => Some Capture
  | Finalize => Some Teardown
  | _ => None
  end.

(** The media type the reader is asked for (lines 204-207). *)
Definition pcm_request : MediaType :=
  [(MF_MT_MAJOR_TYPE, VGuid MFMediaType_Audio);
   (MF_MT_SUBTYPE, VGuid MFAudioFormat_PCM)].

(** The media type the stream is added with (lines 263-278). *)
Definition aac_target : MediaType :=
  [(MF_MT_MAJOR_TYPE, VGuid MFMediaType_Audio);
   (MF_MT_SUBTYPE, VGuid MFAudioFormat_AAC);
   (MF_MT_AUDIO_BITS_PER_SAMPLE, VUInt32 16);
   (MF_MT_AUDIO_SAMPLES_PER_SECOND, VUInt32 44100);
   (MF_MT_AUDIO_NUM_CHANNELS, VUInt32 1);
   (MF_MT_AUDIO_AVG_BYTES_PER_SECOND, VUInt32 16000)].

(** The average bit rate a media type declares: eight times its
    [MF_MT_AUDIO_AVG_BYTES_PER_SECOND]. *)
Definition avg_bits_per_second (t : MediaType) : option Z :=
  match get_attr MF_MT_AUDIO_AVG_BYTES_PER_SECOND t with
  | Some (VUInt32 n) => Some (8 * n)
  | _ => None
  end.

Section SetupCalls.

Variable pf : Platform.
Variable path : string.

Definition device_calls : list api := [MFEnumDeviceSources; ActivateObject 0].
Definition source_calls : list api := [MFCreateSourceReaderFromMediaSource].
Definition format_calls : list api :=
  [SetCurrentMediaType pcm_request; GetCurrentMediaType].
Definition sink_calls : list api :=
  [MFCreateSinkWriterFromURL
     (c_str (StringToWString pf path))
     (SUCCEEDED (hresult pf (MFCreateAttributes pSinkAttributes)))].
Definition stream_calls : list api :=
  [AddStream aac_target; SetInputMediaType (stream_index pf) (actual_type pf)].
Definition begin_calls : list api := [BeginWriting].

(** The principal calls of a setup that goes through, in order. *)
Definition setup_calls : list api :=
  device_calls ++ source_calls ++ format_calls ++ sink_calls
               ++ stream_calls ++ begin_calls.

End SetupCalls.

(** ** The setup, call by call *)

(** Every platform call in a log, in order. *)
Fixpoint calls_of (es : list event) : list api :=
  match es with
  | [] => []
  | Call a _ :: rest => a :: calls_of rest
  | _ :: rest => calls_of rest
  end.

(** The answer to a call lets the setup go on: the call succeeded, and the
    enumeration found at least one device (line 168). *)
Definition goes_on (pf : Platform) (a : api) : bool :=
  SUCCEEDED (hresult pf a)
  && match a with
     | MFEnumDeviceSources => negb (deviceCount pf =? 0)%nat
     | _ => true
     end.

(** A step of the setup: a call, and whether the setup returns when the
    call does not go on. *)
Definition step : Type := (api * bool)%type.
Definition needed (a : api) : step := (a, true).
Definition optional (a : api) : step := (a, false).

Definition passes (pf : Platform) (s : step) : bool :=
  negb (snd s) || goes_on pf (fst s).

(** The calls made when the steps are taken in order, up to and including
    the first needed one that does not go on. *)
Fixpoint attempted (pf : Platform) (steps : list step) : list api :=
  match steps with
  | [] => []
  | s :: rest => fst s :: (if passes pf s then attempted pf rest else [])
  end.

Definition goes_through (pf : Platform) (steps : list step) : bool :=
  forallb (passes pf) steps.

Section SetupSteps.

Variable pf : Platform.
Variable path : string.

(** Lines 147-188. *)
Definition device_steps : list step :=
  [needed (MFCreateAttributes pAttributes);
   needed (SetGUID pAttributes MF_DEVSOURCE_ATTRIBUTE_SOURCE_TYPE
                   MF_DEVSOURCE_ATTRIBUTE_SOURCE_TYPE_AUDCAP_GUID);
   needed MFEnumDeviceSources;
   needed (ActivateObject 0)].

(** Lines 190-198. *)
Definition source_steps : list step :=
  [needed MFCreateSourceReaderFromMediaSource].

(** Lines 200-234. *)
Definition format_steps : list step :=
  [needed (MFCreateMediaType pAudioType);
   needed (SetGUID pAudioType MF_MT_MAJOR_TYPE MFMediaType_Audio);
   needed (SetGUID pAudioType MF_MT_SUBTYPE MFAudioFormat_PCM);
   needed (SetCurrentMediaType pcm_request);
   needed GetCurrentMediaType].

(** Lines 236-257: the attribute store of the sink is optional, and it is
    configured only when it was created. *)
Definition sink_steps : list step :=
  let created := SUCCEEDED (hresult pf (MFCreateAttributes pSinkAttributes)) in
  optional (MFCreateAttributes pSinkAttributes)
  :: (if created
      then [optional (SetUINT32 pSinkAttributes
                                MF_READWRITE_ENABLE_HARDWARE_TRANSFORMS 1)]
      else [])
  ++ [needed (MFCreateSinkWriterFromURL (c_str (StringToWString pf path))
                                        created)].

(** Lines 259-312. *)
Definition stream_steps : list step :=
  [needed (MFCreateMediaType pOutputType);
   needed (SetGUID pOutputType MF_MT_MAJOR_TYPE MFMediaType_Audio);
   needed (SetGUID pOutputType MF_MT_SUBTYPE MFAudioFormat_AAC);
   needed (SetUINT32 pOutputType MF_MT_AUDIO_BITS_PER_SAMPLE 16);
   needed (SetUINT32 pOutputType MF_MT_AUDIO_SAMPLES_PER_SECOND 44100);
   needed (SetUINT32 pOutputType MF_MT_AUDIO_NUM_CHANNELS 1);
   needed (SetUINT32 pOutputType MF_MT_AUDIO_AVG_BYTES_PER_SECOND 16000);
   needed (AddStream aac_target);
   needed (SetInputMediaType (stream_index pf) (actual_type pf))].

(** Lines 314-324. *)
Definition begin_steps : list step := [needed BeginWriting].

(** Every call of a setup that goes through, in order. *)
Definition setup_steps : list step :=
  device_steps ++ source_steps ++ format_steps ++ sink_steps
               ++ stream_steps ++ begin_steps.

End SetupSteps.

(** [block] makes exactly the calls of [steps], in their order, up to and
    including the first needed one that does not go on, and it returns
    from the thread exactly when there is such a one. *)
Definition decided {A} (pf : Platform) (block : Run.t A)
           (steps : string -> list step) : Prop :=
  forall p l,
    exists es,
      log (snd (block (mkWorld p l))) = l ++ es
      /\ current_file_path_ (plug (snd (block (mkWorld p l))))
         = current_file_path_ p
      /\ calls_of es = attempted pf (steps (current_file_path_ p))
      /\ match fst (block (mkWorld p l)) with
         | Some _ => goes_through pf (steps (current_file_path_ p)) = true
         | None => goes_through pf (steps (current_file_path_ p)) = false
         end.

(** ** Contracts of the setup blocks *)

Definition holds (r : resource) (held : list resource) : bool :=
  existsb (resource_eqb r) held.

(** The two pointer fields agree with the references held. *)
Definition pointers_of (held : list resource) (p : plugin) : plugin :=
  set_source_reader (if holds SourceReader held then Some SourceReader else None)
    (set_sink_writer (if holds SinkWriter held then Some SinkWriter else None) p).

(** The plugin after a [return;] out of the setup. *)
Definition aborted (p : plugin) : plugin :=
  set_is_recording false (pointers_of [] p).

(** The fields the body of [RecordingThread] never writes, and with them
    [is_recording_], which it writes only on its way out. *)
Definition kept (p p' : plugin) : Prop :=
  current_file_path_ p' = current_file_path_ p
  /\ stop_requested_ p' = stop_requested_ p
  /\ recording_thread_ p' = recording_thread_ p.

Definition kept_all (p p' : plugin) : Prop :=
  kept p p' /\ is_recording_ p' = is_recording_ p.

(** [block], started holding the references [held_in], either goes through,
    having made exactly the principal calls [calls], all with success, and
    holds [held_out]; or it returns from the thread, having made a prefix of
    [calls], holding nothing, with [is_recording_] cleared as its last act.
    When the pointer fields agreed with [held_in] at the start, they agree
    with what is held at the end, and no other field has changed. *)
Definition contract {A} (pf : Platform) (block : Run.t A)
           (calls : string -> list api)
           (held_in held_out : list resource) (result : A -> Prop) : Prop :=
  forall p l,
    exists es,
      match block (mkWorld p l) with
      | (Some a, w') =>
          log w' = l ++ es
          /\ kept_all p (plug w')
          /\ (pointers_of held_in p = p -> plug w' = pointers_of held_out p)
          /\ principal_calls es = calls (current_file_path_ p)
          /\ Forall (fun a => SUCCEEDED (hresult pf a) = true)
                    (calls (current_file_path_ p))
          /\ live_from held_in es = held_out
          /\ result a
      | (None, w') =>
          log w' = l ++ es ++ [StoreIsRecording false]
          /\ kept p (plug w')
          /\ is_recording_ (plug w') = false
          /\ (pointers_of held_in p = p -> plug w' = aborted p)
          /\ is_prefix (principal_calls es) (calls (current_file_path_ p))
          /\ live_from held_in es = []
      end.

(** Weakest precondition of a computation. *)
Definition wp {A} (c : Run.t A) (w : world) (Q : option A -> world -> Prop) : Prop :=
  Q (fst (c w)) (snd (c w)).

(** The log only grows, and a computation does not depend on it. *)

Definition framed {A} (c : Run.t A) : Prop :=
  forall p l,
    c (mkWorld p l) =
    (fst (c (mkWorld p [])),
     mkWorld (plug (snd (c (mkWorld p [])))) (l ++ log (snd (c (mkWorld p []))))).

(** ** Platform doubles for the concrete scenarios *)

Definition wide (s : string) : wstring :=
  map (fun c => Z.of_nat (Ascii.nat_of_ascii c)) (list_ascii_of_string s).

Definition pcm_44100_16_mono : MediaType :=
  [(MF_MT_MAJOR_TYPE, VGuid MFMediaType_Audio);
   (MF_MT_SUBTYPE, VGuid MFAudioFormat_PCM);
   (MF_MT_AUDIO_BITS_PER_SAMPLE, VUInt32 16);
   (MF_MT_AUDIO_SAMPLES_PER_SECOND, VUInt32 44100);
   (MF_MT_AUDIO_NUM_CHANNELS, VUInt32 1)].

(** Every call succeeds, one microphone, every pull yields a sample. *)
Definition healthy : Platform :=
  mkPlatform (fun _ => S_OK) 1 pcm_44100_16_mono 0
             (fun _ => 0) (fun n => Some (Z.of_nat n)) wide.

(** As [healthy], with no capture device. *)
Definition no_microphone : Platform :=
  mkPlatform (fun _ => S_OK) 0 pcm_44100_16_mono 0
             (fun _ => 0) (fun n => Some (Z.of_nat n)) wide.

(** As [healthy], but the sink writer cannot be created. *)
Definition unwritable : Platform :=
  mkPlatform (fun a => match a with
                       | MFCreateSinkWriterFromURL _ _ => E_FAIL
                       | _ => S_OK
                       end)
             1 pcm_44100_16_mono 0
             (fun _ => 0) (fun n => Some (Z.of_nat n)) wide.

(** As [healthy], but the first pull reports the end of the stream. *)
Definition unplugged : Platform :=
  mkPlatform (fun _ => S_OK) 1 pcm_44100_16_mono 0
             (fun _ => MF_SOURCE_READERF_ENDOFSTREAM) (fun _ => None) wide.

(** As [healthy], but the first pull yields neither a sample nor a flag
    (a stream tick, say). *)
Definition gap_first : Platform :=
  mkPlatform (fun _ => S_OK) 1 pcm_44100_16_mono 0
             (fun _ => 0)
             (fun n => match n with O => None | _ => Some (Z.of_nat n) end) wide.

(** As [healthy], but pulls fail. *)
Definition read_error : Platform :=
  mkPlatform (fun a => match a with ReadSample _ => E_FAIL | _ => S_OK end)
             1 pcm_44100_16_mono 0
             (fun _ => 0) (fun _ => None) wide.

(** As [healthy], but pushes fail. *)
Definition write_error : Platform :=
  mkPlatform (fun a => match a with WriteSample _ _ _ => E_FAIL | _ => S_OK end)
             1 pcm_44100_16_mono 0
             (fun _ => 0) (fun n => Some (Z.of_nat n)) wide.

(** The world after [StartRecording path] on a fresh plugin. *)
Definition started (path : string) : world :=
  match StartRecording path new_world with
  | Returns (_, w) => w
  | _ => new_world
  end.

(** ** The recording loop *)

(** The reference the [i]-th pull hands out, if it hands out a sample. *)
Definition got_sample (pf : Platform) (i : nat) : list event :=
  match read_sample pf i with Some _ => [Acquire (pSample i)] | None => [] end.

(** What follows the loop when both pointer fields are set. *)
Definition teardown (pf : Platform) : list event :=
  [Call Finalize (hresult pf Finalize); Release SinkWriter; Release SourceReader].

(** A blocking pull. *)
Definition is_pull (e : event) : bool :=
  match e with Call (ReadSample _) _ => true | _ => false end.

(** Why the quantum that starts at the loop head leaves the loop, if it does. *)
Definition exit_reason (pf : Platform) (w : world) : option loop_exit :=
  match recording_thread_ (plug w) with
  | AtLoopHead streamIndex i j =>
      match fst (iteration pf streamIndex i j w) with
      | Some (inr reason) => Some reason
      | _ => None
      end
  | _ => None
  end.

(** The keys of a [flutter::EncodableMap], a [std::map], are distinct. *)
Definition distinct_keys (arguments : option EncodableValue) : Prop :=
  forall m, arguments = Some (EncMap m) -> NoDup (map fst m).

(** The arguments are a map with the string [path] under the key "path". *)
Definition holds_path (arguments : option EncodableValue) (path : string)
  : Prop :=
  exists m, arguments = Some (EncMap m)
            /\ In (EncString "path", EncString path) m.

(** The pointer fields are null while the worker has not entered
    [RecordingThread] and set while it stands at the loop head. *)
Definition pointer_discipline (p : plugin) : Prop :=
  match recording_thread_ p with
  | Launched => source_reader_ p = None /\ sink_writer_ p = None
  | AtLoopHead _ _ _ =>
      source_reader_ p = Some SourceReader /\ sink_writer_ p = Some SinkWriter
  | _ => True
  end.

(** * The rest of the plugin *)

(** [~AudioRecorderPlugin] (audio_recorder_plugin.cpp:42-50), followed by
    the destruction of the members: destroying a [std::thread] that is
    still joinable calls [std::terminate]. *)
Definition destroy_plugin (pf : Platform) (fuel : nat) (w : world) : outcome world :=
  let after_body :=
    if is_recording_ (plug w) then
      let w1 := mkWorld (set_stop_requested true (plug w)) (log w) in
      if joinable (recording_thread_ (plug w1)) then join pf fuel w1 else Some w1
    else Some w in
  match after_body with
  | None => Blocked
  | Some w2 =>
      if joinable (recording_thread_ (plug w2)) then Terminates else Returns w2
  end.

(** What the control thread and the scheduler can do to the plugin. *)
Inductive action : Type :=
| DoStart (path : string)    (* StartRecording *)
| DoStop                     (* StopRecording *)
| DoWorker.                  (* one quantum of the worker *)

Definition perform (pf : Platform) (fuel : nat) (a : action) (w : world)
  : outcome world :=
  match a with
  | DoStart path =>
      match StartRecording path w with
      | Returns (_, w') => Returns w'
      | Terminates => Terminates
      | Blocked => Blocked
      end
  | DoStop =>
      match StopRecording pf fuel w with
      | Returns (_, w') => Returns w'
      | Terminates => Terminates
      | Blocked => Blocked
      end
  | DoWorker => Returns (worker_step pf w)
  end.

Fixpoint run (pf : Platform) (fuel : nat) (acts : list action) (w : world)
  : outcome world :=
  match acts with
  | [] => Returns w
  | a :: rest =>
      match perform pf fuel a w with
      | Returns w' => run pf fuel rest w'
      | Terminates => Terminates
      | Blocked => Blocked
      end
  end.

(** The platform hands out a sample only with a pull that succeeds and
    carries no end-of-stream flag. *)
Definition clean_reads (pf : Platform) : Prop :=
  forall i,
    read_sample pf i <> None ->
    SUCCEEDED (hresult pf (ReadSample i)) = true
    /\ Z.land (read_flags pf i) MF_SOURCE_READERF_ENDOFSTREAM = 0.

(** What is held, and what the pointer fields and [is_recording_] are, at
    each control point of the worker. *)
Definition session_invariant (w : world) : Prop :=
  match recording_thread_ (plug w) with
  | Launched =>
      live (log w) = [] /\ is_recording_ (plug w) = true
      /\ source_reader_ (plug w) = None /\ sink_writer_ (plug w) = None
  | AtLoopHead _ _ _ =>
      live (log w) = [SourceReader; SinkWriter] /\ is_recording_ (plug w) = true
      /\ source_reader_ (plug w) = Some SourceReader
      /\ sink_writer_ (plug w) = Some SinkWriter
  | Finished | NotJoinable =>
      live (log w) = []
      /\ source_reader_ (plug w) = None /\ sink_writer_ (plug w) = None
  end.

(** A push to the sink. *)
Definition is_push (e : event) : bool :=
  match e with Call (WriteSample _ _ _) _ => true | _ => false end.

(** The next [k] pulls succeed without end-of-stream flag and yield a
    sample, and the next [k] pushes succeed. *)
Fixpoint good_run (pf : Platform) (streamIndex : DWORD) (i j k : nat) : Prop :=
  match k with
  | O => True
  | S k' =>
      SUCCEEDED (hresult pf (ReadSample i)) = true
      /\ Z.land (read_flags pf i) MF_SOURCE_READERF_ENDOFSTREAM = 0
      /\ (exists s, read_sample pf i = Some s
                    /\ SUCCEEDED (hresult pf (WriteSample j streamIndex s)) = true)
      /\ good_run pf streamIndex (S i) (S j) k'
  end.

(** * The window (windows/runner/flutter_window.cpp)

    The click-through, frame and transparency code of [FlutterWindow].  The
    window's two style words are held by the system and read and written
    through [GetWindowLongPtr]/[SetWindowLongPtr]; they are integers in
    two's complement, and the masks are the ones of winuser.h.
    [SetWindowPos] with [SWP_FRAMECHANGED] only makes the system apply the
    styles; the calls are counted.  Only bits 0 to 31 of a style word are
    style bits, and only they are spoken of.  Screen coordinates are taken
    far from the bounds of [int], where the two subtractions of the hit
    test do not wrap.  Of the window's timers only the one this code
    starts, with identifier 1, is followed. *)

Definition WS_POPUP : Z := 0x80000000.
Definition WS_CAPTION : Z := 0x00C00000.
Definition WS_SYSMENU : Z := 0x00080000.
Definition WS_THICKFRAME : Z := 0x00040000.
Definition WS_MINIMIZEBOX : Z := 0x00020000.
Definition WS_MAXIMIZEBOX : Z := 0x00010000.
Definition WS_OVERLAPPED : Z := 0x00000000.
Definition WS_OVERLAPPEDWINDOW : Z :=
  Z.lor WS_OVERLAPPED
    (Z.lor WS_CAPTION
       (Z.lor WS_SYSMENU
          (Z.lor WS_THICKFRAME (Z.lor WS_MINIMIZEBOX WS_MAXIMIZEBOX)))).
Definition WS_EX_TRANSPARENT : Z := 0x00000020.
Definition WS_EX_LAYERED : Z := 0x00080000.

Record FlutterWindow : Type := mkWindow {
  hwnd : bool;                      (* GetHandle() is not null *)
  window_style : Z;                 (* GWL_STYLE *)
  window_ex_style : Z;              (* GWL_EXSTYLE *)
  timer_running : bool;             (* the system runs the window's timer 1 *)
  frame_changes : nat;              (* SetWindowPos(..., SWP_FRAMECHANGED) calls *)
  click_through_enabled_ : bool;
  mouse_poll_timer_ : Z;            (* UINT_PTR; 0 is no timer *)
  is_transparent_ : bool
}.

(** What the pointer and window queries of one poll answer. *)
Record Desktop : Type := mkDesktop {
  cursor_x : Z; cursor_y : Z;                         (* GetCursorPos *)
  rect_left : Z; rect_top : Z;
  rect_right : Z; rect_bottom : Z;                    (* GetWindowRect *)
  client_cursor_x : Z;                                (* pt.x after ScreenToClient *)
  client_left : Z; client_right : Z                   (* GetClientRect *)
}.

(** [SetTimer(hwnd, 1, 30, MousePollTimerProc)] answering [timer_id]: a
    value other than 0 says that the window's timer 1 now runs; 0 says
    that the call failed. *)
Definition SetTimer (timer_id : Z) (running : bool) : bool :=
  negb (timer_id =? 0) || running.

(** [KillTimer(hwnd, id)]: the window's timer 1 is stopped when [id] is
    its identifier, 1; for another [id] the call does nothing to it. *)
Definition KillTimer (id : Z) (running : bool) : bool :=
  if id =? 1 then false else running.

(** Lines 21-63.  [timer_id] is what [SetTimer] returns if it is called. *)
Definition SetClickThroughEnabled (timer_id : Z) (enabled : bool)
           (w : FlutterWindow) : FlutterWindow :=
  if negb (hwnd w) then w
  else if enabled then
    (* 34: if (mouse_poll_timer_ == 0 && click_through_enabled_), after
       click_through_enabled_ = true on line 27 *)
    let start := (mouse_poll_timer_ w =? 0) && true in
    mkWindow (hwnd w) (window_style w)
             (Z.lor (Z.lor (window_ex_style w) WS_EX_LAYERED) WS_EX_TRANSPARENT)
             (if start then SetTimer timer_id (timer_running w)
              else timer_running w)
             (frame_changes w)
             true
             (if start then timer_id else mouse_poll_timer_ w)
             true
  else
    (* 48: if (mouse_poll_timer_ != 0) { KillTimer(hwnd, mouse_poll_timer_); ... } *)
    let kill := negb (mouse_poll_timer_ w =? 0) in
    mkWindow (hwnd w) (window_style w)
             (Z.land (Z.lor (window_ex_style w) WS_EX_LAYERED)
                     (Z.lnot WS_EX_TRANSPARENT))
             (if kill then KillTimer (mouse_poll_timer_ w) (timer_running w)
              else timer_running w)
             (S (frame_changes w))
             false
             (if kill then 0 else mouse_poll_timer_ w)
             false.

(** Lines 71-89. *)
Definition RestoreNormalWindowStyle (w : FlutterWindow) : FlutterWindow :=
  if negb (hwnd w) then w
  else
    mkWindow (hwnd w)
             (Z.lor (window_style w) WS_OVERLAPPEDWINDOW)
             (Z.land (window_ex_style w)
                     (Z.lnot (Z.lor WS_EX_LAYERED WS_EX_TRANSPARENT)))
             (timer_running w) (S (frame_changes w))
             (click_through_enabled_ w) (mouse_poll_timer_ w)
             (is_transparent_ w).

(** Lines 91-113. *)
Definition SetFrameless (frameless : bool) (w : FlutterWindow) : FlutterWindow :=
  if negb (hwnd w) then w
  else
    let style := window_style w in
    let style :=
      if frameless then
        Z.lor (Z.land style
                 (Z.lnot (Z.lor (Z.lor (Z.lor (Z.lor WS_CAPTION WS_THICKFRAME)
                                              WS_MINIMIZEBOX)
                                       WS_MAXIMIZEBOX)
                                WS_SYSMENU)))
              WS_POPUP
      else
        Z.lor (Z.land style (Z.lnot WS_POPUP))
              (Z.lor (Z.lor (Z.lor WS_CAPTION WS_MINIMIZEBOX) WS_MAXIMIZEBOX)
                     WS_SYSMENU) in
    mkWindow (hwnd w) style (window_ex_style w)
             (timer_running w) (S (frame_changes w))
             (click_through_enabled_ w) (mouse_poll_timer_ w)
             (is_transparent_ w).

(** Line 128: the cursor is within the window rectangle. *)
Definition mouseInWindow (d : Desktop) : bool :=
  (rect_left d <=? cursor_x d) && (cursor_x d <? rect_right d)
  && (rect_top d <=? cursor_y d) && (cursor_y d <? rect_bottom d).

(** Lines 139-146: the cursor is in the strip of 85 pixels at the right
    edge of the client area. *)
Definition in_visible_strip (d : Desktop) : bool :=
  let windowWidth := client_right d - client_left d in
  let visibleWidth := 85 in
  let clickableLeft := windowWidth - visibleWidth in
  clickableLeft <=? client_cursor_x d.

Definition with_ex_style (ex : Z) (transparent : bool) (w : FlutterWindow)
  : FlutterWindow :=
  mkWindow (hwnd w) (window_style w) ex (timer_running w) (frame_changes w)
           (click_through_enabled_ w) (mouse_poll_timer_ w) transparent.

(** Lines 115-162. *)
Definition UpdateTransparencyForMousePosition (d : Desktop) (w : FlutterWindow)
  : FlutterWindow :=
  if negb (hwnd w) || negb (click_through_enabled_ w) then w
  else if mouseInWindow d && in_visible_strip d then
    (* 146: mouse in the visible area, make the window clickable *)
    if is_transparent_ w then
      with_ex_style (Z.land (Z.lor (window_ex_style w) WS_EX_LAYERED)
                            (Z.lnot WS_EX_TRANSPARENT))
                    false w
    else w
  else
    (* 156: mouse not in the visible area, make the window transparent *)
    if negb (is_transparent_ w) then
      with_ex_style (Z.lor (Z.lor (window_ex_style w) WS_EX_LAYERED)
                           WS_EX_TRANSPARENT)
                    true w
    else w.

(** Lines 65-69; [g] is the static [g_flutter_window]. *)
Definition MousePollTimerProc (d : Desktop) (g : option FlutterWindow)
  : option FlutterWindow :=
  match g with
  | Some w =>
      if click_through_enabled_ w
      then Some (UpdateTransparencyForMousePosition d w)
      else Some w
  | None => None
  end.

(** The handler [SetupMethodChannel] installs (lines 171-195);
    [result->Success()] is a success with the null value. *)
Definition window_method_call (timer_id : Z) (method : string)
           (arguments : option EncodableValue) (w : FlutterWindow)
  : MethodResult * FlutterWindow :=
  if String.eqb method "setClickThroughEnabled" then
    match arguments with
    | Some (EncBool enabled) =>
        (Success EncNull, SetClickThroughEnabled timer_id enabled w)
    | _ => (Error "INVALID_ARGS" "Expected boolean argument", w)
    end
  else if String.eqb method "restoreNormalWindowStyle" then
    (Success EncNull, RestoreNormalWindowStyle w)
  else if String.eqb method "setFrameless" then
    match arguments with
    | Some (EncBool frameless) => (Success EncNull, SetFrameless frameless w)
    | _ => (Error "INVALID_ARGS" "Expected boolean argument", w)
    end
  else (NotImplemented, w).

(** ** Vocabulary for the style words *)

(** Every bit of [mask] is set in [s]; no bit of [mask] is set in [s]; [s]
    and [s'] agree on every one of the 32 style bits outside [mask]. *)
Definition has_bits (s mask : Z) : Prop := Z.land s mask = mask.
Definition lacks_bits (s mask : Z) : Prop := Z.land s mask = 0.
Definition same_outside (mask s s' : Z) : Prop :=
  forall n, 0 <= n < 32 ->
            Z.testbit mask n = false -> Z.testbit s' n = Z.testbit s n.

(** The cached flag says what the style word says. *)
Definition transparency_in_sync (w : FlutterWindow) : Prop :=
  if is_transparent_ w then has_bits (window_ex_style w) WS_EX_TRANSPARENT
  else lacks_bits (window_ex_style w) WS_EX_TRANSPARENT.

(** The window's timer 1 runs exactly when the window remembers a timer,
    and the timer it remembers is timer 1. *)
Definition timer_in_sync (w : FlutterWindow) : Prop :=
  timer_running w = negb (mouse_poll_timer_ w =? 0)
  /\ (mouse_poll_timer_ w = 0 \/ mouse_poll_timer_ w = 1).

(** * Reasoning about [Run.t] computations *)

Lemma FAILED_negb (hr : HRESULT) : FAILED hr = negb (SUCCEEDED hr).
Proof.
  unfold FAILED, SUCCEEDED.
  destruct (Z.ltb_spec hr 0), (Z.leb_spec 0 hr); simpl; auto; lia.
Qed.

(** ** The log only grows, and a computation does not depend on it *)

Lemma framed_ret {A} (a : A) : framed (Run.ret a).
Proof. intros p l. cbn. now rewrite app_nil_r. Qed.

Lemma framed_leave {A} : framed (@Run.leave A).
Proof. intros p l. cbn. now rewrite app_nil_r. Qed.

Lemma framed_get {A} (f : plugin -> A) : framed (Run.get f).
Proof. intros p l. cbn. now rewrite app_nil_r. Qed.

Lemma framed_update f : framed (Run.update f).
Proof. intros p l. cbn. now rewrite app_nil_r. Qed.

Lemma framed_emit e : framed (Run.emit e).
Proof. intros p l. reflexivity. Qed.

Lemma framed_emit_all es : framed (emit_all es).
Proof. intros p l. reflexivity. Qed.

Lemma framed_bind {A B} (c : Run.t A) (k : A -> Run.t B) :
  framed c -> (forall a, framed (k a)) -> framed (Run.bind c k).
Proof.
  intros Hc Hk p l. unfold Run.bind.
  rewrite (Hc p l).
  destruct (c (mkWorld p [])) as [[a|] [p1 l1]]; cbn.
  - rewrite (Hk a p1 (l ++ l1)), (Hk a p1 l1).
    destruct (k a (mkWorld p1 [])) as [r [p2 l2]]; cbn.
    now rewrite app_assoc.
  - reflexivity.
Qed.

Lemma framed_if {A} (b : bool) (c1 c2 : Run.t A) :
  framed c1 -> framed c2 -> framed (if b then c1 else c2).
Proof. now destruct b. Qed.

Create HintDb framed.
#[export] Hint Resolve framed_ret framed_leave framed_get framed_update
  framed_emit framed_emit_all framed_if : framed.

Ltac framed_step :=
  first
    [ apply framed_bind; [ | intro ]
    | apply framed_if
    | solve [ auto with framed ]
    | match goal with
      | |- framed (match ?x with _ => _ end) => destruct x
      end ].

Lemma framed_call pf a : framed (call pf a).
Proof. unfold call. repeat framed_step. Qed.

Lemma framed_release r : framed (release r).
Proof. apply framed_emit. Qed.

Lemma framed_when b c : framed c -> framed (Run.when b c).
Proof. intros. unfold Run.when. now apply framed_if; auto with framed. Qed.

#[export] Hint Resolve framed_call framed_release framed_when : framed.

Lemma framed_create pf a r : framed (create pf a r).
Proof. unfold create. repeat framed_step. Qed.

Lemma framed_store_is_recording b : framed (store_is_recording b).
Proof. unfold store_is_recording. repeat framed_step. Qed.

#[export] Hint Resolve framed_create framed_store_is_recording : framed.

Lemma framed_bail_if b c : framed c -> framed (bail_if b c).
Proof. intros. unfold bail_if. repeat framed_step. Qed.

Lemma framed_set_if_ok pf obj key value st : framed (set_if_ok pf obj key value st).
Proof. unfold set_if_ok. repeat framed_step. Qed.

Lemma framed_drop_source_reader : framed drop_source_reader.
Proof. unfold drop_source_reader. repeat framed_step. Qed.

Lemma framed_drop_sink_writer : framed drop_sink_writer.
Proof. unfold drop_sink_writer. repeat framed_step. Qed.

#[export] Hint Resolve framed_bail_if framed_set_if_ok
  framed_drop_source_reader framed_drop_sink_writer : framed.

Lemma framed_select_device pf : framed (select_device pf).
Proof. unfold select_device. repeat framed_step. Qed.

Lemma framed_open_source pf : framed (open_source pf).
Proof. unfold open_source. repeat framed_step. Qed.

Lemma framed_negotiate_format pf : framed (negotiate_format pf).
Proof. unfold negotiate_format. repeat framed_step. Qed.

Lemma framed_open_sink pf : framed (open_sink pf).
Proof. unfold open_sink. repeat framed_step. Qed.

Lemma framed_register_stream pf : framed (register_stream pf).
Proof. unfold register_stream. repeat framed_step. Qed.

Lemma framed_begin_writing pf : framed (begin_writing pf).
Proof. unfold begin_writing. repeat framed_step. Qed.

#[export] Hint Resolve framed_select_device framed_open_source
  framed_negotiate_format framed_open_sink framed_register_stream
  framed_begin_writing : framed.

Lemma framed_setup pf : framed (setup pf).
Proof. unfold setup. repeat framed_step. Qed.

Lemma framed_iteration pf streamIndex i j : framed (iteration pf streamIndex i j).
Proof. unfold iteration. repeat framed_step. Qed.

Lemma framed_after_loop pf : framed (after_loop pf).
Proof. unfold after_loop. repeat framed_step. Qed.

(** ** Symbolic execution of [Run.t] computations *)

Lemma wp_bind {A B} (c : Run.t A) (k : A -> Run.t B) w Q :
  wp c w (fun r w' => match r with
                      | Some a => wp (k a) w' Q
                      | None => Q None w'
                      end) ->
  wp (Run.bind c k) w Q.
Proof. unfold wp, Run.bind. destruct (c w) as [[a|] w']; cbn; auto. Qed.

Lemma wp_ret {A} (a : A) w (Q : option A -> world -> Prop) :
  Q (Some a) w -> wp (Run.ret a) w Q.
Proof. auto. Qed.

Lemma wp_leave {A} w (Q : option A -> world -> Prop) :
  Q None w -> wp Run.leave w Q.
Proof. auto. Qed.

Lemma wp_get {A} (f : plugin -> A) w Q :
  Q (Some (f (plug w))) w -> wp (Run.get f) w Q.
Proof. auto. Qed.

Lemma wp_update f w (Q : option unit -> world -> Prop) :
  Q (Some tt) (mkWorld (f (plug w)) (log w)) -> wp (Run.update f) w Q.
Proof. auto. Qed.

Lemma wp_emit e w (Q : option unit -> world -> Prop) :
  Q (Some tt) (mkWorld (plug w) (log w ++ [e])) -> wp (Run.emit e) w Q.
Proof. auto. Qed.

Lemma wp_emit_all es w (Q : option unit -> world -> Prop) :
  Q (Some tt) (mkWorld (plug w) (log w ++ es)) -> wp (emit_all es) w Q.
Proof. auto. Qed.

(** Decide the condition of the conditional at the head of the program:
    from a hypothesis if it was decided before, by cases otherwise. *)
Ltac wp_cond b :=
  lazymatch b with
  | context [FAILED ?x] => rewrite (FAILED_negb x)
  | context [SUCCEEDED ?x] =>
      first [ match goal with H : SUCCEEDED x = _ |- _ => rewrite H end
            | destruct (SUCCEEDED x) eqn:? ]
  | context [Nat.eqb ?x ?y] =>
      first [ match goal with H : Nat.eqb x y = _ |- _ => rewrite H end
            | destruct (Nat.eqb x y) eqn:? ]
  | _ => cbn [negb orb andb]
  end.

Ltac wp_step :=
  lazymatch goal with
  | |- wp (Run.bind _ _) _ _ => apply wp_bind
  | |- wp (Run.ret _) _ _ => apply wp_ret
  | |- wp Run.leave _ _ => apply wp_leave
  | |- wp (Run.get _) _ _ => apply wp_get
  | |- wp (Run.update _) _ _ => apply wp_update
  | |- wp (Run.emit _) _ _ => apply wp_emit
  | |- wp (emit_all _) _ _ => apply wp_emit_all
  | |- wp (Run.when _ _) _ _ => unfold Run.when at 1
  | |- wp (call _ _) _ _ => unfold call at 1
  | |- wp (create _ _ _) _ _ => unfold create at 1
  | |- wp (release _) _ _ => unfold release at 1
  | |- wp (store_is_recording _) _ _ => unfold store_is_recording at 1
  | |- wp (bail_if _ _) _ _ => unfold bail_if at 1
  | |- wp (set_if_ok _ _ _ _ _) _ _ => unfold set_if_ok at 1
  | |- wp drop_source_reader _ _ => unfold drop_source_reader at 1
  | |- wp drop_sink_writer _ _ => unfold drop_sink_writer at 1
  | |- wp (if ?b then _ else _) _ _ => wp_cond b
  end;
  cbn beta iota zeta delta [plug log app fst snd].

Ltac wp_run := repeat wp_step.

(** ** Facts about the log readers *)

Lemma principal_calls_app es1 es2 :
  principal_calls (es1 ++ es2) = principal_calls es1 ++ principal_calls es2.
Proof.
  induction es1 as [|[a hr| | | |] es1 IH]; cbn; auto.
  destruct (principal a); cbn; now rewrite IH.
Qed.

Lemma live_from_app held es1 es2 :
  live_from held (es1 ++ es2) = live_from (live_from held es1) es2.
Proof.
  revert held. induction es1 as [|[] es1 IH]; intros; cbn; auto.
Qed.

Lemma resource_eqb_refl r : resource_eqb r r = true.
Proof. destruct r; cbn; auto using Nat.eqb_refl. Qed.

Lemma live_from_acquire_all held rs :
  live_from held (map Acquire rs) = held ++ rs.
Proof.
  revert held. induction rs as [|r rs IH]; intros; cbn.
  - now rewrite app_nil_r.
  - rewrite IH, <- app_assoc. reflexivity.
Qed.

Lemma live_from_release_all rs held :
  live_from (rs ++ held) (map Release rs) = held.
Proof.
  induction rs as [|r rs IH]; cbn; auto.
  now rewrite resource_eqb_refl.
Qed.

Lemma principal_calls_acquire_all rs : principal_calls (map Acquire rs) = [].
Proof. induction rs; cbn; auto. Qed.

Lemma principal_calls_release_all rs : principal_calls (map Release rs) = [].
Proof. induction rs; cbn; auto. Qed.

Lemma is_prefix_refl l : is_prefix l l.
Proof. induction l; cbn; auto. Qed.

Lemma is_prefix_app_r l l1 l2 : is_prefix l l1 -> is_prefix l (l1 ++ l2).
Proof.
  revert l1. induction l as [|a l IH]; intros [|b l1]; cbn; auto; try tauto.
  intros [-> H]. auto.
Qed.

Lemma is_prefix_app_l l l1 l2 : is_prefix l1 l2 -> is_prefix (l ++ l1) (l ++ l2).
Proof. induction l; cbn; auto. Qed.

Lemma is_prefix_In l1 l2 a : is_prefix l1 l2 -> In a l1 -> In a l2.
Proof.
  revert l2. induction l1 as [|b l1 IH]; intros [|c l2]; cbn; try tauto.
  intros [-> H] [->|Hin]; eauto.
Qed.

Lemma principal_calls_In a hr es :
  In (Call a hr) es -> principal a = true -> In a (principal_calls es).
Proof.
  induction es as [|e es IH]; cbn; [tauto|].
  intros [->|Hin] Hp.
  - rewrite Hp. now left.
  - destruct e as [b ? | | | |]; auto.
    destruct (principal b); cbn; auto.
Qed.

Lemma cons_snoc {A} (a x : A) l l' : l = l' ++ [x] -> a :: l = (a :: l') ++ [x].
Proof. now intros ->. Qed.

(** ** Contracts *)

Lemma pointers_of_idem held p : pointers_of held (pointers_of held p) = pointers_of held p.
Proof. reflexivity. Qed.

Lemma pointers_of_absorb held held' p :
  pointers_of held (pointers_of held' p) = pointers_of held p.
Proof. reflexivity. Qed.

Lemma aborted_pointers_of held p : aborted (pointers_of held p) = aborted p.
Proof. reflexivity. Qed.

(** A contract is established by symbolic execution from the empty log. *)
Lemma contract_intro {A} pf (block : Run.t A) calls held_in held_out result :
  framed block ->
  (forall p,
      wp block (mkWorld p [])
         (fun r w' =>
            match r with
            | Some a =>
                kept_all p (plug w')
                /\ (pointers_of held_in p = p -> plug w' = pointers_of held_out p)
                /\ principal_calls (log w') = calls (current_file_path_ p)
                /\ Forall (fun a => SUCCEEDED (hresult pf a) = true)
                          (calls (current_file_path_ p))
                /\ live_from held_in (log w') = held_out
                /\ result a
            | None =>
                kept p (plug w')
                /\ is_recording_ (plug w') = false
                /\ (pointers_of held_in p = p -> plug w' = aborted p)
                /\ exists es,
                    log w' = es ++ [StoreIsRecording false]
                    /\ is_prefix (principal_calls es) (calls (current_file_path_ p))
                    /\ live_from held_in es = []
            end)) ->
  contract pf block calls held_in held_out result.
Proof.
  intros Hf H p l. specialize (H p). unfold wp in H.
  rewrite (Hf p l).
  destruct (block (mkWorld p [])) as [[a|] [p' l']]; cbn in *.
  - exists l'. destruct H as (? & ? & ? & ? & ? & ?). repeat split; auto; apply H.
  - destruct H as (Hk & ? & ? & es & -> & ? & ?). exists es.
    repeat split; auto; apply Hk.
Qed.

Lemma kept_all_trans p p1 p2 : kept_all p p1 -> kept_all p1 p2 -> kept_all p p2.
Proof. unfold kept_all, kept. intuition congruence. Qed.

Lemma kept_trans p p1 p2 : kept_all p p1 -> kept p1 p2 -> kept p p2.
Proof. unfold kept_all, kept. intuition congruence. Qed.

Lemma contract_bind {A B} pf (c : Run.t A) (k : A -> Run.t B)
      calls1 calls2 held0 held1 held2 result1 result2 :
  contract pf c calls1 held0 held1 result1 ->
  (forall a, result1 a -> contract pf (k a) calls2 held1 held2 result2) ->
  contract pf (Run.bind c k) (fun path => calls1 path ++ calls2 path)
           held0 held2 result2.
Proof.
  intros Hc Hk p l. unfold Run.bind.
  destruct (Hc p l) as [es1 H1].
  destruct (c (mkWorld p l)) as [[a|] [p1 l1]]; cbn in H1.
  - destruct H1 as (-> & Hkept1 & Hplug1 & Hcalls1 & Hok1 & Hlive1 & Hres).
    destruct (Hk a Hres p1 (l ++ es1)) as [es2 H2].
    exists (es1 ++ es2).
    assert (Hpath1 : current_file_path_ p1 = current_file_path_ p)
      by apply Hkept1.
    destruct (k a _) as [[b|] w2]; rewrite Hpath1 in H2.
    + destruct H2 as (-> & Hkept2 & Hplug2 & Hcalls2 & Hok2 & Hlive2 & Hres2).
      rewrite principal_calls_app, live_from_app, Hlive1, app_assoc.
      repeat split; eauto using kept_all_trans; try apply (kept_all_trans _ _ _ Hkept1 Hkept2).
      * intros Hp. rewrite Hplug2; rewrite (Hplug1 Hp); reflexivity.
      * now rewrite Hcalls1, Hcalls2.
      * apply Forall_app; auto.
    + destruct H2 as (-> & Hkept2 & Hrec & Hplug2 & Hpre & Hlive2).
      rewrite principal_calls_app, live_from_app, Hlive1, Hcalls1.
      rewrite <- !app_assoc.
      repeat split; auto using is_prefix_app_l;
        try apply (kept_trans _ _ _ Hkept1 Hkept2).
      intros Hp. rewrite Hplug2; rewrite (Hplug1 Hp); reflexivity.
  - exists es1. destruct H1 as (-> & Hkept & Hrec & Hplug & Hpre & Hlive).
    repeat split; auto using is_prefix_app_r; apply Hkept.
Qed.

Ltac snoc :=
  lazymatch goal with
  | |- [?x] = _ => exact (eq_refl ([] ++ [x]))
  | |- _ :: _ = _ => apply cons_snoc; snoc
  | |- _ ++ [_] = _ => reflexivity
  end.

Ltac plugin_eq :=
  let Hp := fresh "Hp" in
  intros Hp;
  match type of Hp with
  | pointers_of _ ?p = ?p => destruct p; cbv in Hp |- *; congruence
  end.

Ltac contract_finish :=
  cbn -[pointers_of aborted];
  split; [ repeat split | ];
  try (split; [ reflexivity | ]);
  split; [ plugin_eq | ];
  try (eexists; split; [ snoc | ]);
  cbn; repeat split; auto;
  try solve [ repeat constructor; auto ].

Lemma open_source_contract pf :
  contract pf (open_source pf) (fun _ => source_calls) [pSource] [SourceReader]
           (fun _ => True).
Proof.
  apply contract_intro; auto with framed.
  intros p. unfold open_source. wp_run.
  all: contract_finish.
Qed.

Lemma negotiate_format_contract pf :
  contract pf (negotiate_format pf) (fun _ => format_calls)
           [SourceReader] [SourceReader; pActualType] (fun _ => True).
Proof.
  apply contract_intro; auto with framed.
  intros p. unfold negotiate_format. wp_run.
  all: contract_finish.
Qed.

Lemma open_sink_contract pf :
  contract pf (open_sink pf) (sink_calls pf)
           [SourceReader; pActualType] [SourceReader; pActualType; SinkWriter]
           (fun _ => True).
Proof.
  apply contract_intro; auto with framed.
  intros p. unfold open_sink. wp_run.
  all: unfold sink_calls.
  all: repeat match goal with H : SUCCEEDED _ = _ |- _ => rewrite H end.
  all: contract_finish.
Qed.

Lemma register_stream_contract pf :
  contract pf (register_stream pf) (fun _ => stream_calls pf)
           [SourceReader; pActualType; SinkWriter] [SourceReader; SinkWriter]
           (fun streamIndex => streamIndex = stream_index pf).
Proof.
  apply contract_intro; auto with framed.
  intros p. unfold register_stream. wp_run.
  all: contract_finish.
Qed.

Lemma begin_writing_contract pf :
  contract pf (begin_writing pf) (fun _ => begin_calls)
           [SourceReader; SinkWriter] [SourceReader; SinkWriter] (fun _ => True).
Proof.
  apply contract_intro; auto with framed.
  intros p. unfold begin_writing. wp_run.
  all: contract_finish.
Qed.

Lemma live_from_release_all_nil rs : live_from rs (map Release rs) = [].
Proof.
  rewrite <- (app_nil_r rs) at 1. apply live_from_release_all.
Qed.

Lemma devices_none pf : (deviceCount pf =? 0)%nat = true -> devices pf = [].
Proof. intros H%Nat.eqb_eq. unfold devices. now rewrite H. Qed.

Lemma select_device_contract pf :
  contract pf (select_device pf) (fun _ => device_calls) [] [pSource]
           (fun _ => True).
Proof.
  apply contract_intro; auto with framed.
  intros p. unfold select_device. wp_run.
  all: contract_finish.
  all: rewrite ?devices_none by assumption.
  all: rewrite ?live_from_app, ?principal_calls_app, ?live_from_acquire_all,
         ?principal_calls_acquire_all, ?principal_calls_release_all.
  all: cbn; rewrite ?live_from_release_all, ?live_from_release_all_nil; auto.
Qed.

Lemma begin_writing_return_contract pf (streamIndex : DWORD) :
  contract pf (Run.bind (begin_writing pf) (fun _ => Run.ret streamIndex))
           (fun _ => begin_calls)
           [SourceReader; SinkWriter] [SourceReader; SinkWriter]
           (fun r => r = streamIndex).
Proof.
  apply contract_intro; [ repeat framed_step | ].
  intros p. unfold begin_writing. wp_run.
  all: contract_finish.
Qed.

(** The whole setup, from a plugin whose pointer fields are null. *)
Lemma setup_contract pf :
  contract pf (setup pf) (setup_calls pf) [] [SourceReader; SinkWriter]
           (fun streamIndex => streamIndex = stream_index pf).
Proof.
  unfold setup, setup_calls.
  eapply (contract_bind pf _ _ (fun _ => device_calls));
    [ apply select_device_contract | intros _ _ ].
  eapply (contract_bind pf _ _ (fun _ => source_calls));
    [ apply open_source_contract | intros _ _ ].
  eapply (contract_bind pf _ _ (fun _ => format_calls));
    [ apply negotiate_format_contract | intros _ _ ].
  eapply (contract_bind pf _ _ (sink_calls pf));
    [ apply open_sink_contract | intros _ _ ].
  eapply (contract_bind pf _ _ (fun _ => stream_calls pf));
    [ apply register_stream_contract | intros streamIndex -> ].
  apply begin_writing_return_contract.
Qed.

(** ** Which calls the setup makes, and whether it goes through *)

Lemma calls_of_app es1 es2 : calls_of (es1 ++ es2) = calls_of es1 ++ calls_of es2.
Proof.
  induction es1 as [|[a hr| | | |] es1 IH]; cbn; auto. now rewrite IH.
Qed.

Lemma calls_of_acquire_all rs : calls_of (map Acquire rs) = [].
Proof. induction rs; cbn; auto. Qed.

Lemma calls_of_release_all rs : calls_of (map Release rs) = [].
Proof. induction rs; cbn; auto. Qed.

Lemma goes_through_app pf s1 s2 :
  goes_through pf (s1 ++ s2) = goes_through pf s1 && goes_through pf s2.
Proof. apply forallb_app. Qed.

Lemma attempted_app pf s1 s2 :
  attempted pf (s1 ++ s2)
  = attempted pf s1 ++ (if goes_through pf s1 then attempted pf s2 else []).
Proof.
  induction s1 as [|s s1 IH]; cbn; [ reflexivity | ].
  destruct (passes pf s); cbn; [ now rewrite IH | reflexivity ].
Qed.

(** Established by symbolic execution from the empty log. *)
Lemma decided_intro {A} pf (block : Run.t A) steps :
  framed block ->
  (forall p,
      wp block (mkWorld p [])
         (fun r w' =>
            current_file_path_ (plug w') = current_file_path_ p
            /\ calls_of (log w') = attempted pf (steps (current_file_path_ p))
            /\ match r with
               | Some _ => goes_through pf (steps (current_file_path_ p)) = true
               | None => goes_through pf (steps (current_file_path_ p)) = false
               end)) ->
  decided pf block steps.
Proof.
  intros Hf H p l. specialize (H p). unfold wp in H.
  rewrite (Hf p l).
  destruct (block (mkWorld p [])) as [r [p' l']]; cbn in *.
  exists l'. destruct H as (? & ? & ?). auto.
Qed.

Lemma decided_bind {A B} pf (c : Run.t A) (k : A -> Run.t B) steps1 steps2 :
  decided pf c steps1 ->
  (forall a, decided pf (k a) steps2) ->
  decided pf (Run.bind c k) (fun path => steps1 path ++ steps2 path).
Proof.
  intros Hc Hk p l. unfold Run.bind.
  destruct (Hc p l) as (es1 & Hl1 & Hpath1 & Hcalls1 & Hgo1).
  destruct (c (mkWorld p l)) as [[a|] [p1 l1]]; cbn in Hl1, Hpath1, Hgo1.
  - subst l1.
    destruct (Hk a p1 (l ++ es1)) as (es2 & Hl2 & Hpath2 & Hcalls2 & Hgo2).
    rewrite Hpath1 in Hpath2, Hcalls2, Hgo2.
    exists (es1 ++ es2).
    rewrite Hl2, app_assoc, calls_of_app, attempted_app, goes_through_app, Hgo1.
    rewrite Hcalls1, Hcalls2.
    repeat split; auto.
  - cbn [fst snd plug log]. subst l1. exists es1.
    rewrite attempted_app, goes_through_app, Hgo1, app_nil_r.
    repeat split; auto.
Qed.

Ltac decide_steps :=
  repeat
    (cbv beta iota zeta
         delta [device_steps source_steps format_steps sink_steps stream_steps
                begin_steps pcm_request aac_target needed optional goes_through passes goes_on
                attempted forallb fst snd negb orb andb app];
     match goal with
     | H : SUCCEEDED _ = _ |- _ => rewrite !H
     | H : Nat.eqb _ _ = _ |- _ => rewrite !H
     end);
  cbv beta iota zeta
      delta [device_steps source_steps format_steps sink_steps stream_steps
             begin_steps pcm_request aac_target needed optional goes_through passes goes_on
             attempted forallb fst snd negb orb andb app].

Ltac decided_finish :=
  cbn [set_attr attr_eqb] in *;
  cbn [plug log current_file_path_ set_is_recording set_source_reader
       set_sink_writer];
  split; [ match goal with
           | |- context [current_file_path_ ?p] => destruct p; reflexivity
           end | ];
  repeat (cbn [calls_of app];
          rewrite ?calls_of_app, ?calls_of_acquire_all, ?calls_of_release_all);
  decide_steps;
  split; reflexivity.
Lemma select_device_decided pf : decided pf (select_device pf) (fun _ => device_steps).
Proof.
  apply decided_intro; auto with framed.
  intros p. unfold select_device. wp_run.
  all: decided_finish.
Qed.

Lemma open_source_decided pf : decided pf (open_source pf) (fun _ => source_steps).
Proof.
  apply decided_intro; auto with framed.
  intros p. unfold open_source. wp_run.
  all: decided_finish.
Qed.

Lemma negotiate_format_decided pf :
  decided pf (negotiate_format pf) (fun _ => format_steps).
Proof.
  apply decided_intro; auto with framed.
  intros p. unfold negotiate_format. wp_run.
  all: decided_finish.
Qed.

Lemma open_sink_decided pf : decided pf (open_sink pf) (sink_steps pf).
Proof.
  apply decided_intro; auto with framed.
  intros p. unfold open_sink. wp_run.
  all: decided_finish.
Qed.

Lemma register_stream_decided pf :
  decided pf (register_stream pf) (fun _ => stream_steps pf).
Proof.
  apply decided_intro; auto with framed.
  intros p. unfold register_stream. wp_run.
  all: decided_finish.
Qed.

Lemma begin_writing_return_decided pf (streamIndex : DWORD) :
  decided pf (Run.bind (begin_writing pf) (fun _ => Run.ret streamIndex))
          (fun _ => begin_steps).
Proof.
  apply decided_intro; [ repeat framed_step | ].
  intros p. unfold begin_writing. wp_run.
  all: decided_finish.
Qed.

Lemma setup_decided pf : decided pf (setup pf) (setup_steps pf).
Proof.
  unfold setup, setup_steps.
  eapply (decided_bind pf _ _ (fun _ => device_steps));
    [ apply select_device_decided | intros _ ].
  eapply (decided_bind pf _ _ (fun _ => source_steps));
    [ apply open_source_decided | intros _ ].
  eapply (decided_bind pf _ _ (fun _ => format_steps));
    [ apply negotiate_format_decided | intros _ ].
  eapply (decided_bind pf _ _ (sink_steps pf));
    [ apply open_sink_decided | intros _ ].
  eapply (decided_bind pf _ _ (fun _ => stream_steps pf));
    [ apply register_stream_decided | intros streamIndex ].
  apply begin_writing_return_decided.
Qed.


(** * The worker, quantum by quantum *)

Lemma worker_steps_S pf k w :
  worker_steps pf (S k) w = worker_step pf (worker_steps pf k w).
Proof. reflexivity. Qed.

Lemma worker_steps_shift pf k w :
  worker_steps pf (S k) w = worker_steps pf k (worker_step pf w).
Proof.
  induction k as [|k IH]; [reflexivity|].
  rewrite worker_steps_S, IH. reflexivity.
Qed.

Lemma worker_step_finished pf w :
  recording_thread_ (plug w) = Finished -> worker_step pf w = w.
Proof. intros H. unfold worker_step. now rewrite H. Qed.

Lemma worker_steps_finished pf k w :
  recording_thread_ (plug w) = Finished -> worker_steps pf k w = w.
Proof.
  intros H. induction k as [|k IH]; [reflexivity|].
  rewrite worker_steps_S, IH. now apply worker_step_finished.
Qed.

Lemma null_pointers p :
  source_reader_ p = None -> sink_writer_ p = None -> pointers_of [] p = p.
Proof. destruct p; cbn; intros -> ->; reflexivity. Qed.

(** The quantum that starts at the entry of [RecordingThread]. *)
Lemma worker_step_launched pf w :
  recording_thread_ (plug w) = Launched ->
  exists es,
    (log (worker_step pf w) = log w ++ es
     /\ recording_thread_ (plug (worker_step pf w))
        = AtLoopHead (stream_index pf) 0 0
     /\ current_file_path_ (plug (worker_step pf w)) = current_file_path_ (plug w)
     /\ stop_requested_ (plug (worker_step pf w)) = stop_requested_ (plug w)
     /\ is_recording_ (plug (worker_step pf w)) = is_recording_ (plug w)
     /\ (source_reader_ (plug w) = None -> sink_writer_ (plug w) = None ->
         plug (worker_step pf w)
         = set_recording_thread (AtLoopHead (stream_index pf) 0 0)
             (pointers_of [SourceReader; SinkWriter] (plug w)))
     /\ principal_calls es = setup_calls pf (current_file_path_ (plug w))
     /\ Forall (fun a => SUCCEEDED (hresult pf a) = true)
               (setup_calls pf (current_file_path_ (plug w)))
     /\ live es = [SourceReader; SinkWriter])
    \/
    (log (worker_step pf w) = log w ++ es ++ [StoreIsRecording false]
     /\ recording_thread_ (plug (worker_step pf w)) = Finished
     /\ current_file_path_ (plug (worker_step pf w)) = current_file_path_ (plug w)
     /\ stop_requested_ (plug (worker_step pf w)) = stop_requested_ (plug w)
     /\ is_recording_ (plug (worker_step pf w)) = false
     /\ (source_reader_ (plug w) = None -> sink_writer_ (plug w) = None ->
         plug (worker_step pf w)
         = set_recording_thread Finished (set_is_recording false (plug w)))
     /\ is_prefix (principal_calls es)
                  (setup_calls pf (current_file_path_ (plug w)))
     /\ live es = []).
Proof.
  intros Ht. unfold worker_step. rewrite Ht.
  destruct w as [p l]. cbn [plug log] in *.
  destruct (setup_contract pf p l) as [es H].
  exists es.
  destruct (setup pf (mkWorld p l)) as [[streamIndex|] [p1 l1]]; cbn in H |- *.
  - left.
    destruct H as (-> & ((Hpath & Hstop & _) & Hrec) & Hplug & Hcalls & Hok & Hlive & ->).
    repeat split; auto.
    intros Hr Hs. now rewrite (Hplug (null_pointers p Hr Hs)).
  - right. destruct H as (-> & (Hpath & Hstop & _) & Hrec & Hplug & Hpre & Hlive).
    repeat split; auto.
    intros Hr Hs. rewrite (Hplug (null_pointers p Hr Hs)).
    destruct p; cbn in *; subst; reflexivity.
Qed.

(** The same quantum, decided by what the platform answers. *)
Lemma worker_step_launched_decided pf w :
  recording_thread_ (plug w) = Launched ->
  exists es,
    log (worker_step pf w) = log w ++ es
    /\ calls_of es = attempted pf (setup_steps pf (current_file_path_ (plug w)))
    /\ (goes_through pf (setup_steps pf (current_file_path_ (plug w))) = false
        <-> recording_thread_ (plug (worker_step pf w)) = Finished).
Proof.
  intros Ht. unfold worker_step. rewrite Ht.
  destruct w as [p l]. cbn [plug log] in *.
  destruct (setup_decided pf p l) as (es & Hl & _ & Hcalls & Hgo).
  exists es.
  destruct (setup pf (mkWorld p l)) as [[streamIndex|] [p1 l1]];
    cbn [fst snd plug log at_point set_recording_thread recording_thread_] in *.
  - split; [ exact Hl | ]. split; [ exact Hcalls | ].
    rewrite Hgo. split; discriminate.
  - split; [ exact Hl | ]. split; [ exact Hcalls | ].
    rewrite Hgo. split; reflexivity.
Qed.

(** One pass through the loop, by cases on what the worker meets. *)
Lemma iteration_stop pf streamIndex i j p l :
  stop_requested_ p = true ->
  iteration pf streamIndex i j (mkWorld p l)
  = (Some (inr StopRequested), mkWorld p (l ++ [StopFlagRead true])).
Proof. intros H. unfold iteration. cbn. rewrite H. reflexivity. Qed.

Lemma iteration_go pf streamIndex i j p l :
  stop_requested_ p = false ->
  let hr := hresult pf (ReadSample i) in
  let l1 := l ++ [StopFlagRead false; Call (ReadSample i) hr] ++ got_sample pf i in
  iteration pf streamIndex i j (mkWorld p l)
  = if FAILED hr then (Some (inr ReadFailed), mkWorld p l1)
    else if negb (Z.land (read_flags pf i) MF_SOURCE_READERF_ENDOFSTREAM =? 0)
    then (Some (inr EndOfStream), mkWorld p l1)
    else match read_sample pf i with
         | Some s =>
             let hw := hresult pf (WriteSample j streamIndex s) in
             let l2 := l1 ++ [Call (WriteSample j streamIndex s) hw;
                              Release (pSample i)] in
             if FAILED hw then (Some (inr WriteFailed), mkWorld p l2)
             else (Some (inl (S i, S j)), mkWorld p l2)
         | None => (Some (inl (S i, j)), mkWorld p l1)
         end.
Proof.
  intros H. unfold iteration, got_sample. cbn. rewrite H. cbn.
  destruct (read_sample pf i) as [s|]; cbn;
    destruct (FAILED (hresult pf (ReadSample i))); cbn;
    rewrite <- ?app_assoc; cbn; try reflexivity;
    destruct (Z.land _ _ =? 0); cbn; rewrite <- ?app_assoc; try reflexivity.
  destruct (FAILED (hresult pf (WriteSample j streamIndex s))); cbn;
    rewrite <- ?app_assoc; reflexivity.
Qed.

Lemma after_loop_owned pf p l :
  sink_writer_ p = Some SinkWriter ->
  source_reader_ p = Some SourceReader ->
  after_loop pf (mkWorld p l)
  = (Some tt, mkWorld (pointers_of [] p) (l ++ teardown pf)).
Proof.
  intros Hs Hr. unfold after_loop, teardown. cbn. rewrite Hs. cbn. rewrite Hr. cbn.
  rewrite <- !app_assoc. reflexivity.
Qed.

(** The quantum that starts at the loop head. *)
Lemma worker_step_at_loop_head pf w streamIndex i j :
  recording_thread_ (plug w) = AtLoopHead streamIndex i j ->
  worker_step pf w
  = match iteration pf streamIndex i j w with
    | (Some (inl (i', j')), w') => at_point (AtLoopHead streamIndex i' j') w'
    | (_, w') => at_point Finished (snd (after_loop pf w'))
    end.
Proof. intros H. unfold worker_step. now rewrite H. Qed.

Lemma after_loop_effect pf p l :
  exists es,
    after_loop pf (mkWorld p l) = (Some tt, mkWorld (pointers_of [] p) (l ++ es))
    /\ forallb (fun e => negb (is_pull e)) es = true.
Proof.
  unfold after_loop. destruct p as [path rec stop thr [r|] [s|]]; cbn.
  - exists [Call Finalize (hresult pf Finalize); Release s; Release r].
    rewrite <- !app_assoc. now split.
  - exists [Release r]. now split.
  - exists [Call Finalize (hresult pf Finalize); Release s].
    rewrite <- !app_assoc. now split.
  - exists []. rewrite app_nil_r. now split.
Qed.

(** A quantum writes neither [current_file_path_] nor [stop_requested_],
    leaves a joinable thread joinable, and only adds to the log. *)
Lemma worker_step_kept pf w :
  current_file_path_ (plug (worker_step pf w)) = current_file_path_ (plug w)
  /\ stop_requested_ (plug (worker_step pf w)) = stop_requested_ (plug w)
  /\ joinable (recording_thread_ (plug (worker_step pf w)))
     = joinable (recording_thread_ (plug w))
  /\ exists es, log (worker_step pf w) = log w ++ es.
Proof.
  destruct (recording_thread_ (plug w)) as [| |streamIndex i j|] eqn:Ht.
  - unfold worker_step. rewrite Ht, Ht. repeat split; auto.
    exists []. now rewrite app_nil_r.
  - destruct (worker_step_launched pf w Ht) as [es [H|H]].
    + destruct H as (Hl & Hth & Hp & Hs & _). rewrite Hth.
      repeat split; auto. eauto.
    + destruct H as (Hl & Hth & Hp & Hs & _). rewrite Hth.
      repeat split; auto. eauto.
  - rewrite (worker_step_at_loop_head pf w _ _ _ Ht).
    destruct w as [p l]. cbn [plug log] in *.
    destruct (stop_requested_ p) eqn:Hstop.
    + rewrite (iteration_stop _ _ _ _ _ _ Hstop).
      destruct (after_loop_effect pf p (l ++ [StopFlagRead true])) as (es & -> & _).
      cbn. repeat split; auto. rewrite <- app_assoc. eauto.
    + rewrite (iteration_go _ _ _ _ _ _ Hstop). cbv zeta.
      repeat match goal with
             | |- context [if ?b then _ else _] => destruct b
             | |- context [match read_sample ?a ?b with _ => _ end] =>
                 destruct (read_sample a b)
             end;
        try match goal with
            | |- context [after_loop pf (mkWorld p ?l0)] =>
                destruct (after_loop_effect pf p l0) as (es & -> & _)
            end;
        cbn; repeat split; auto; rewrite <- ?app_assoc; eauto.
  - unfold worker_step. rewrite Ht, Ht. repeat split; auto.
    exists []. now rewrite app_nil_r.
Qed.

(** ** The loop is only ever reached holding the reader and the writer *)

Lemma worker_step_pointer_discipline pf w :
  pointer_discipline (plug w) -> pointer_discipline (plug (worker_step pf w)).
Proof.
  unfold pointer_discipline.
  destruct (recording_thread_ (plug w)) as [| |streamIndex i j|] eqn:Ht.
  - intros _. unfold worker_step. now rewrite Ht, Ht.
  - intros [Hr Hs].
    destruct (worker_step_launched pf w Ht) as [es [H|H]].
    + destruct H as (_ & _ & _ & _ & _ & Hplug & _).
      rewrite (Hplug Hr Hs). cbn. auto.
    + destruct H as (_ & Hth & _). now rewrite Hth.
  - intros [Hr Hs].
    rewrite (worker_step_at_loop_head pf w _ _ _ Ht).
    destruct w as [p l]. cbn [plug log] in *.
    destruct (stop_requested_ p) eqn:Hstop.
    + now rewrite (iteration_stop _ _ _ _ _ _ Hstop).
    + rewrite (iteration_go _ _ _ _ _ _ Hstop). cbv zeta.
      repeat match goal with
             | |- context [if ?b then _ else _] => destruct b
             | |- context [match read_sample ?a ?b with _ => _ end] =>
                 destruct (read_sample a b)
             end; cbn; auto.
  - intros _. unfold worker_step. now rewrite Ht, Ht.
Qed.

Lemma worker_steps_pointer_discipline pf k w :
  pointer_discipline (plug w) -> pointer_discipline (plug (worker_steps pf k w)).
Proof.
  intros H. induction k as [|k IH]; [ exact H | ].
  rewrite worker_steps_S. now apply worker_step_pointer_discipline.
Qed.

(** In particular after [StartRecording] on a plugin with null pointers,
    whenever the worker stands at the loop head both pointers are set. *)
Lemma loop_head_holds_reader_and_writer pf path w w1 k streamIndex i j :
  source_reader_ (plug w) = None ->
  sink_writer_ (plug w) = None ->
  StartRecording path w = Returns (true, w1) ->
  recording_thread_ (plug (worker_steps pf k w1)) = AtLoopHead streamIndex i j ->
  source_reader_ (plug (worker_steps pf k w1)) = Some SourceReader
  /\ sink_writer_ (plug (worker_steps pf k w1)) = Some SinkWriter.
Proof.
  intros Hr Hs Hstart Hloop.
  assert (H1 : pointer_discipline (plug w1)).
  { unfold StartRecording in Hstart.
    destruct (is_recording_ (plug w)); [ discriminate | ].
    cbn in Hstart.
    destruct (joinable (recording_thread_ (plug w))); [ discriminate | ].
    injection Hstart as <-. cbn. auto. }
  pose proof (worker_steps_pointer_discipline pf k w1 H1) as H.
  unfold pointer_discipline in H. now rewrite Hloop in H.
Qed.

(** * The control thread *)

Lemma worker_steps_kept pf k w :
  current_file_path_ (plug (worker_steps pf k w)) = current_file_path_ (plug w)
  /\ stop_requested_ (plug (worker_steps pf k w)) = stop_requested_ (plug w)
  /\ joinable (recording_thread_ (plug (worker_steps pf k w)))
     = joinable (recording_thread_ (plug w))
  /\ exists es, log (worker_steps pf k w) = log w ++ es.
Proof.
  induction k as [|k (Hp & Hs & Hj & es & Hl)].
  - repeat split; auto. exists []. now rewrite app_nil_r.
  - rewrite worker_steps_S.
    destruct (worker_step_kept pf (worker_steps pf k w)) as (Hp' & Hs' & Hj' & es' & Hl').
    repeat split; try congruence.
    exists (es ++ es'). rewrite Hl', Hl. now rewrite app_assoc.
Qed.

Lemma join_finished pf fuel w :
  recording_thread_ (plug w) = Finished ->
  join pf fuel w = Some (at_point NotJoinable w).
Proof. intros H. destruct fuel; cbn; now rewrite H. Qed.

Lemma join_running pf n w :
  recording_thread_ (plug w) <> Finished ->
  recording_thread_ (plug w) <> NotJoinable ->
  join pf (S n) w = join pf n (worker_step pf w).
Proof.
  intros H1 H2.
  change (join pf (S n) w)
    with (match recording_thread_ (plug w) with
          | Finished => Some (at_point NotJoinable w)
          | NotJoinable => Some w
          | _ => join pf n (worker_step pf w)
          end).
  destruct (recording_thread_ (plug w)); congruence.
Qed.

Lemma stopped_at_loop_head pf w streamIndex i j :
  recording_thread_ (plug w) = AtLoopHead streamIndex i j ->
  stop_requested_ (plug w) = true ->
  recording_thread_ (plug (worker_step pf w)) = Finished.
Proof.
  intros Ht Hs. rewrite (worker_step_at_loop_head pf w _ _ _ Ht).
  destruct w as [p l]. cbn [plug] in *.
  now rewrite (iteration_stop _ _ _ _ _ _ Hs).
Qed.

(** Once [stop_requested_] is set, two quanta of the worker are enough for
    [join] to return. *)
Lemma join_stopped pf fuel w :
  stop_requested_ (plug w) = true ->
  joinable (recording_thread_ (plug w)) = true ->
  (2 <= fuel)%nat ->
  exists w',
    join pf fuel w = Some w'
    /\ recording_thread_ (plug w') = NotJoinable
    /\ current_file_path_ (plug w') = current_file_path_ (plug w)
    /\ exists es, log w' = log w ++ es.
Proof.
  intros Hs Hj Hf.
  destruct fuel as [|[|fuel]]; try lia.
  assert (Hdone : forall n v, recording_thread_ (plug v) = Finished ->
                   current_file_path_ (plug v) = current_file_path_ (plug w) ->
                   (exists es, log v = log w ++ es) ->
                   exists w', join pf n v = Some w'
                     /\ recording_thread_ (plug w') = NotJoinable
                     /\ current_file_path_ (plug w') = current_file_path_ (plug w)
                     /\ exists es, log w' = log w ++ es).
  { intros n v Hv Hp Hl. rewrite (join_finished pf n v Hv).
    eexists; repeat split; auto. }
  assert (Hloop : forall n v streamIndex i j,
             recording_thread_ (plug v) = AtLoopHead streamIndex i j ->
             stop_requested_ (plug v) = true ->
             current_file_path_ (plug v) = current_file_path_ (plug w) ->
             (exists es, log v = log w ++ es) ->
             exists w', join pf (S n) v = Some w'
                     /\ recording_thread_ (plug w') = NotJoinable
                     /\ current_file_path_ (plug w') = current_file_path_ (plug w)
                     /\ exists es, log w' = log w ++ es).
  { intros n v streamIndex i j Hv Hsv Hp [es Hl].
    rewrite join_running by (rewrite Hv; discriminate).
    destruct (worker_step_kept pf v) as (Hp' & _ & _ & es' & Hl').
    apply Hdone.
    - eapply stopped_at_loop_head; eauto.
    - congruence.
    - exists (es ++ es'). rewrite Hl', Hl. now rewrite app_assoc. }
  destruct (recording_thread_ (plug w)) as [| |streamIndex i j|] eqn:Ht;
    try discriminate.
  - (* Launched *)
    rewrite join_running by (rewrite Ht; discriminate).
    destruct (worker_step_kept pf w) as (Hp' & Hs' & _ & es' & Hl').
    destruct (worker_step_launched pf w Ht) as [es [H|H]].
    + destruct H as (_ & Hth & _).
      eapply Hloop; eauto; congruence.
    + destruct H as (_ & Hth & _).
      apply Hdone; eauto.
  - eapply Hloop; eauto. exists []. now rewrite app_nil_r.
  - apply Hdone; auto. exists []. now rewrite app_nil_r.
Qed.

(** * The claims *)

(** C8 (confirmed).  [StartRecording] on a plugin whose [is_recording_] is
    set, which it is from the moment a first [StartRecording] claimed the
    session until [StopRecording] returns, answers [false] and leaves the
    whole plugin as it was: the stored path, both flags, the thread object,
    the two native pointers, and no event is logged.  The same holds when
    the call arrives through the method channel. *)
Theorem start_while_recording_is_rejected (pf : Platform) (fuel : nat)
        (path : string) (w : world) :
  is_recording_ (plug w) = true ->
  StartRecording path w = Returns (false, w)
  /\ HandleMethodCall pf fuel "startRecording"
       (Some (EncMap [(EncString "path", EncString path)])) w
     = Returns (Success (EncBool false), w).
Proof.
  intros H. unfold HandleMethodCall, StartRecording. cbn. now rewrite H.
Qed.

Lemma start_while_recording_is_rejected_witness :
  let w := worker_steps healthy 3 (started "out.m4a") in
  is_recording_ (plug w) = true
  /\ StartRecording "other.m4a" w = Returns (false, w).
Proof.
  cbv zeta. split; [ reflexivity | ].
  apply (start_while_recording_is_rejected healthy 0 "other.m4a"
           (worker_steps healthy 3 (started "out.m4a"))).
  reflexivity.
Defined.

(** C10 (confirmed).  At the loop head with [stop_requested_] clear, a pull
    that succeeds, carries no end-of-stream flag and hands out no sample
    makes the worker log the flag read and the pull and nothing else (no
    push to the sink), and puts it back at the loop head for the next pull;
    [is_recording_] and every other field are as before. *)
Theorem empty_read_is_skipped (pf : Platform) (w : world)
        (streamIndex : DWORD) (i j : nat) :
  recording_thread_ (plug w) = AtLoopHead streamIndex i j ->
  stop_requested_ (plug w) = false ->
  SUCCEEDED (hresult pf (ReadSample i)) = true ->
  Z.land (read_flags pf i) MF_SOURCE_READERF_ENDOFSTREAM = 0 ->
  read_sample pf i = None ->
  worker_step pf w
  = mkWorld (set_recording_thread (AtLoopHead streamIndex (S i) j) (plug w))
            (log w ++ [StopFlagRead false;
                       Call (ReadSample i) (hresult pf (ReadSample i))]).
Proof.
  intros Ht Hs Hok Hflags Hsample.
  rewrite (worker_step_at_loop_head pf w _ _ _ Ht).
  destruct w as [p l]. cbn [plug log] in *.
  rewrite (iteration_go _ _ _ _ _ _ Hs). cbv zeta.
  rewrite FAILED_negb, Hok, Hflags. unfold got_sample. rewrite Hsample.
  reflexivity.
Qed.

Lemma empty_read_is_skipped_witness :
  worker_step gap_first (worker_step gap_first (started "out.m4a"))
  = mkWorld (set_recording_thread (AtLoopHead 0 1 0)
               (plug (worker_step gap_first (started "out.m4a"))))
            (log (worker_step gap_first (started "out.m4a"))
               ++ [StopFlagRead false; Call (ReadSample 0) S_OK]).
Proof.
  apply (empty_read_is_skipped gap_first
           (worker_step gap_first (started "out.m4a")) 0 0 0);
    reflexivity.
Defined.

(** C9 (confirmed).  A quantum that starts at the loop head first reads
    [stop_requested_].  When the flag is clear, the pull follows at once
    and is the only pull of the quantum.  When the flag is set, the quantum
    makes no pull, the worker has returned at its end, and no further
    quantum of this worker changes anything: it never pulls again. *)
Theorem stop_flag_is_read_before_every_pull (pf : Platform) (w : world)
        (streamIndex : DWORD) (i j : nat) :
  recording_thread_ (plug w) = AtLoopHead streamIndex i j ->
  exists es,
    log (worker_step pf w) = log w ++ StopFlagRead (stop_requested_ (plug w)) :: es
    /\ (stop_requested_ (plug w) = false ->
        exists rest,
          es = Call (ReadSample i) (hresult pf (ReadSample i)) :: rest
          /\ forallb (fun e => negb (is_pull e)) rest = true)
    /\ (stop_requested_ (plug w) = true ->
        forallb (fun e => negb (is_pull e)) es = true
        /\ recording_thread_ (plug (worker_step pf w)) = Finished
        /\ forall k, worker_steps pf k (worker_step pf w) = worker_step pf w).
Proof.
  intros Ht.
  rewrite (worker_step_at_loop_head pf w _ _ _ Ht).
  destruct w as [p l]. cbn [plug log] in *.
  destruct (stop_requested_ p) eqn:Hstop.
  - rewrite (iteration_stop _ _ _ _ _ _ Hstop).
    destruct (after_loop_effect pf p (l ++ [StopFlagRead true])) as (es & E & Hes).
    rewrite E. cbn. exists es. rewrite <- app_assoc.
    repeat split; auto; try discriminate.
    intros k. now apply worker_steps_finished.
  - rewrite (iteration_go _ _ _ _ _ _ Hstop). cbv zeta.
    assert (Hgot : forallb (fun e => negb (is_pull e)) (got_sample pf i) = true)
      by (unfold got_sample; now destruct (read_sample pf i)).
    repeat match goal with
           | |- context [if ?b then _ else _] => destruct b
           | |- context [match read_sample ?a ?b with _ => _ end] =>
               destruct (read_sample a b) eqn:?
           end;
      try match goal with
          | |- context [after_loop pf (mkWorld p ?l0)] =>
              destruct (after_loop_effect pf p l0) as (es & -> & Hes)
          end;
      cbn [at_point plug log snd];
      rewrite <- ?app_assoc;
      eexists; (split; [ cbn; reflexivity | ]);
      (split; [ intros _ | discriminate ]);
      eexists; (split; [ reflexivity | ]);
      rewrite ?forallb_app, ?Hgot; cbn; rewrite ?Hes; reflexivity.
Qed.

Lemma stop_flag_is_read_before_every_pull_witness :
  exists es,
    log (worker_step healthy (worker_step healthy (started "out.m4a")))
    = log (worker_step healthy (started "out.m4a"))
        ++ StopFlagRead false :: es.
Proof.
  destruct (stop_flag_is_read_before_every_pull healthy
              (worker_step healthy (started "out.m4a")) 0 0 0 eq_refl)
    as (es & H & _).
  exists es. exact H.
Defined.

(** C6 (confirmed).  At the loop head with both native pointers set (they
    are whenever the loop is reached, [loop_head_holds_reader_and_writer]):
    - whatever makes the quantum leave the loop (stop request, failed pull,
      end of stream, failed push), the worker ends its log with [Finalize] on
      the sink writer, the release of the sink writer and the release of
      the source reader, in that order, nulls both pointers and returns;
      it does not touch [is_recording_] itself;
    - [StopRecording] stores [false] to [is_recording_] only after the
      worker has done so and has been joined. *)
Theorem loop_exit_finalizes_then_releases (pf : Platform) (w : world)
        (streamIndex : DWORD) (i j : nat) :
  recording_thread_ (plug w) = AtLoopHead streamIndex i j ->
  sink_writer_ (plug w) = Some SinkWriter ->
  source_reader_ (plug w) = Some SourceReader ->
  (forall reason,
      exit_reason pf w = Some reason ->
      exists es,
        log (worker_step pf w) = log w ++ es ++ teardown pf
        /\ ~ In (StoreIsRecording false) es
        /\ plug (worker_step pf w)
           = set_recording_thread Finished (pointers_of [] (plug w)))
  /\ (is_recording_ (plug w) = true ->
      forall fuel, (1 <= fuel)%nat ->
        StopRecording pf fuel w
        = Returns (current_file_path_ (plug w),
                   mkWorld (mkPlugin "" false true NotJoinable None None)
                           (log w ++ [StopFlagRead true] ++ teardown pf
                                  ++ [StoreIsRecording false]))).
Proof.
  intros Ht Hsink Hreader. split.
  - intros reason Hexit.
    unfold exit_reason in Hexit. rewrite Ht in Hexit.
    rewrite (worker_step_at_loop_head pf w _ _ _ Ht).
    destruct w as [p l]. cbn [plug log] in *.
    destruct (stop_requested_ p) eqn:Hstop.
    + rewrite (iteration_stop _ _ _ _ _ _ Hstop).
      rewrite (after_loop_owned pf p _ Hsink Hreader). cbn.
      exists [StopFlagRead true]. rewrite <- app_assoc.
      repeat split; auto. cbn. intuition discriminate.
    + rewrite (iteration_go _ _ _ _ _ _ Hstop) in Hexit |- *. cbv zeta in *.
      assert (Hgot : ~ In (StoreIsRecording false) (got_sample pf i))
        by (unfold got_sample; destruct (read_sample pf i); cbn;
            intuition discriminate).
      repeat match goal with
             | |- context [if ?b then _ else _] => destruct b
             | |- context [match read_sample ?a ?b with _ => _ end] =>
                 destruct (read_sample a b) eqn:?
             end;
        try discriminate;
        rewrite (after_loop_owned pf p _ Hsink Hreader);
        cbn [at_point plug log snd];
        rewrite <- !(app_assoc l);
        eexists; (split; [ reflexivity | ]);
        (split; [ | reflexivity ]);
        cbn; rewrite ?in_app_iff; cbn; intuition discriminate.
  - intros Hrec fuel Hfuel.
    destruct fuel as [|fuel]; [ lia | ].
    unfold StopRecording. rewrite Hrec. cbn [negb].
    destruct w as [p l]. cbn [plug log] in *.
    change (recording_thread_ (set_stop_requested true p))
      with (recording_thread_ p).
    rewrite Ht. cbn [joinable].
    set (w1 := mkWorld (set_stop_requested true p) l).
    assert (Hth : recording_thread_ (plug w1) = AtLoopHead streamIndex i j)
      by exact Ht.
    rewrite join_running by (rewrite Hth; discriminate).
    rewrite (worker_step_at_loop_head pf w1 _ _ _ Hth). unfold w1.
    rewrite (iteration_stop pf streamIndex i j (set_stop_requested true p) l eq_refl).
    rewrite (after_loop_owned pf (set_stop_requested true p) _ Hsink Hreader).
    rewrite join_finished by reflexivity.
    cbn. rewrite <- !app_assoc. reflexivity.
Qed.

Lemma loop_exit_finalizes_then_releases_witness :
  StopRecording healthy 1 (worker_steps healthy 3 (started "out.m4a"))
  = Returns ("out.m4a",
             mkWorld (mkPlugin "" false true NotJoinable None None)
                     (log (worker_steps healthy 3 (started "out.m4a"))
                        ++ [StopFlagRead true] ++ teardown healthy
                        ++ [StoreIsRecording false])).
Proof.
  apply (proj2 (loop_exit_finalizes_then_releases healthy
                  (worker_steps healthy 3 (started "out.m4a")) 0 2 2
                  eq_refl eq_refl eq_refl) eq_refl 1%nat).
  lia.
Defined.

(** Each of the four ways out of the loop occurs. *)
Example exit_on_stop_request :
  exit_reason healthy
    (mkWorld (set_stop_requested true
                (plug (worker_step healthy (started "out.m4a"))))
             (log (worker_step healthy (started "out.m4a"))))
  = Some StopRequested.
Proof. reflexivity. Qed.

Example exit_on_read_failure :
  exit_reason read_error (worker_step read_error (started "out.m4a"))
  = Some ReadFailed.
Proof. reflexivity. Qed.

Example exit_on_end_of_stream :
  exit_reason unplugged (worker_step unplugged (started "out.m4a"))
  = Some EndOfStream.
Proof. reflexivity. Qed.

Example exit_on_write_failure :
  exit_reason write_error (worker_step write_error (started "out.m4a"))
  = Some WriteFailed.
Proof. reflexivity. Qed.

(** What [StartRecording] does on a plugin that is not recording and whose
    thread object is not joinable. *)
Lemma StartRecording_idle path w :
  is_recording_ (plug w) = false ->
  recording_thread_ (plug w) = NotJoinable ->
  StartRecording path w
  = Returns (true,
             mkWorld (mkPlugin path true false Launched
                               (source_reader_ (plug w)) (sink_writer_ (plug w)))
                     (log w ++ [StoreIsRecording true])).
Proof.
  intros Hrec Ht. unfold StartRecording. rewrite Hrec. cbn. rewrite Ht. reflexivity.
Qed.

(** C5 (amended).  From a plugin that is not recording and has no unjoined
    worker, [StartRecording path] returns [true], sets [is_recording_] and
    stores [path].  After any number of worker quanta: if [is_recording_]
    is still set, [StopRecording] returns exactly [path], clears the stored
    path and [is_recording_] and leaves the thread joined; if the worker
    has cleared [is_recording_] meanwhile (its setup was aborted),
    [StopRecording] returns the empty string and changes nothing, so the
    stored path stays. *)
Theorem start_then_stop (pf : Platform) (path : string) (w : world)
        (k fuel : nat) :
  is_recording_ (plug w) = false ->
  recording_thread_ (plug w) = NotJoinable ->
  (2 <= fuel)%nat ->
  exists w1,
    StartRecording path w = Returns (true, w1)
    /\ is_recording_ (plug w1) = true
    /\ current_file_path_ (plug w1) = path
    /\ let w2 := worker_steps pf k w1 in
       if is_recording_ (plug w2) then
         exists w3,
           StopRecording pf fuel w2 = Returns (path, w3)
           /\ is_recording_ (plug w3) = false
           /\ current_file_path_ (plug w3) = ""
           /\ recording_thread_ (plug w3) = NotJoinable
       else
         StopRecording pf fuel w2 = Returns ("", w2)
         /\ current_file_path_ (plug w2) = path.
Proof.
  intros Hrec Ht Hfuel.
  rewrite (StartRecording_idle path w Hrec Ht).
  eexists. split; [ reflexivity | ]. split; [ reflexivity | ].
  split; [ reflexivity | ]. cbv zeta.
  match goal with |- context [worker_steps pf k ?v] => set (w1 := v) end.
  destruct (worker_steps_kept pf k w1) as (Hp & Hs & Hj & _).
  set (w2 := worker_steps pf k w1) in *.
  unfold StopRecording.
  destruct (is_recording_ (plug w2)) eqn:Hrec2; cbn [negb].
  - cbn [plug log].
    change (recording_thread_ (set_stop_requested true (plug w2)))
      with (recording_thread_ (plug w2)).
    change (joinable (recording_thread_ (plug w1))) with true in Hj.
    rewrite Hj.
    destruct (join_stopped pf fuel (mkWorld (set_stop_requested true (plug w2)) (log w2)))
      as (w' & -> & Hth & Hpath & _); auto.
    eexists. split.
    { cbn. cbn in Hpath. rewrite Hpath, Hp. reflexivity. }
    repeat split; auto.
  - split; [ reflexivity | exact Hp ].
Qed.

Lemma start_then_stop_witness :
  exists w1,
    StartRecording "out.m4a" new_world = Returns (true, w1)
    /\ is_recording_ (plug w1) = true
    /\ current_file_path_ (plug w1) = "out.m4a"
    /\ let w2 := worker_steps healthy 5 w1 in
       if is_recording_ (plug w2) then
         exists w3,
           StopRecording healthy 2 w2 = Returns ("out.m4a", w3)
           /\ is_recording_ (plug w3) = false
           /\ current_file_path_ (plug w3) = ""
           /\ recording_thread_ (plug w3) = NotJoinable
       else
         StopRecording healthy 2 w2 = Returns ("", w2)
         /\ current_file_path_ (plug w2) = "out.m4a".
Proof.
  apply (start_then_stop healthy "out.m4a" new_world 5 2);
    [ reflexivity | reflexivity | lia ].
Defined.

(** C5, as stated, fails: with no capture device the worker clears
    [is_recording_] on its own, and a [StopRecording] that comes after that
    returns the empty string instead of the path, which stays stored. *)
Lemma stop_after_aborted_setup_returns_no_path :
  let w2 := worker_steps no_microphone 1 (started "out.m4a") in
  StartRecording "out.m4a" new_world = Returns (true, started "out.m4a")
  /\ StopRecording no_microphone 2 w2 = Returns ("", w2)
  /\ current_file_path_ (plug w2) = "out.m4a".
Proof. cbv zeta. repeat split; reflexivity. Qed.

(** With no capture device [select_device] returns from the thread. *)
Lemma select_device_no_device pf p l :
  deviceCount pf = 0%nat -> fst (select_device pf (mkWorld p l)) = None.
Proof.
  intros H.
  change (wp (select_device pf) (mkWorld p l) (fun r _ => r = None)).
  unfold select_device. wp_run.
  all: try reflexivity.
  all: rewrite H in *; discriminate.
Qed.

Lemma setup_no_device pf p l :
  deviceCount pf = 0%nat ->
  exists es p',
    setup pf (mkWorld p l)
    = (None, mkWorld p' (l ++ es ++ [StoreIsRecording false]))
    /\ is_recording_ p' = false
    /\ is_prefix (principal_calls es) device_calls.
Proof.
  intros H. unfold setup, Run.bind at 1.
  pose proof (select_device_no_device pf p l H) as Hnone.
  destruct (select_device_contract pf p l) as [es Hc].
  destruct (select_device pf (mkWorld p l)) as [[u|] [p' l']]; [ discriminate | ].
  cbn in Hc. destruct Hc as (-> & _ & Hrec & _ & Hpre & _).
  exists es, p'. auto.
Qed.

Lemma not_in_prefix a es calls :
  is_prefix (principal_calls es) calls ->
  principal a = true -> ~ In a calls ->
  forall hr, ~ In (Call a hr) es.
Proof.
  intros Hpre Hp Hnot hr Hin. apply Hnot.
  eapply is_prefix_In; eauto using principal_calls_In.
Qed.

(** C1 (amended).  With no capture device, [StartRecording] on an idle
    plugin still returns [true]: the enumeration happens on the worker,
    after [StartRecording] has returned.  However many quanta the worker
    then gets, it never calls [MFCreateSinkWriterFromURL]; after its first
    quantum it has cleared [is_recording_] and returned. *)
Theorem no_device_no_sink (pf : Platform) (path : string) (w : world) :
  deviceCount pf = 0%nat ->
  is_recording_ (plug w) = false ->
  recording_thread_ (plug w) = NotJoinable ->
  exists w1,
    StartRecording path w = Returns (true, w1)
    /\ forall k,
        exists es,
          log (worker_steps pf k w1) = log w1 ++ es
          /\ (forall url attrs hr,
                 ~ In (Call (MFCreateSinkWriterFromURL url attrs) hr) es)
          /\ ((1 <= k)%nat ->
              is_recording_ (plug (worker_steps pf k w1)) = false
              /\ recording_thread_ (plug (worker_steps pf k w1)) = Finished).
Proof.
  intros Hdev Hrec Ht.
  rewrite (StartRecording_idle path w Hrec Ht).
  eexists. split; [ reflexivity | ].
  match goal with |- context [worker_steps pf _ ?v] => set (w1 := v) end.
  assert (Hstep : exists es,
             log (worker_step pf w1) = log w1 ++ es
             /\ (forall url attrs hr,
                    ~ In (Call (MFCreateSinkWriterFromURL url attrs) hr) es)
             /\ is_recording_ (plug (worker_step pf w1)) = false
             /\ recording_thread_ (plug (worker_step pf w1)) = Finished).
  { unfold worker_step. change (recording_thread_ (plug w1)) with Launched.
    cbv iota.
    destruct (setup_no_device pf (plug w1) (log w1) Hdev) as (es & p' & E & Hr & Hpre).
    change (mkWorld (plug w1) (log w1)) with w1 in E. rewrite E.
    exists (es ++ [StoreIsRecording false]). repeat split; auto.
    intros url attrs hr [Hin|Hin]%in_app_iff.
    - revert Hin. eapply not_in_prefix; eauto.
      cbn. intuition discriminate.
    - cbn in Hin. intuition discriminate. }
  intros [|k].
  - exists []. rewrite app_nil_r. repeat split; auto; lia.
  - destruct Hstep as (es & Hl & Hno & Hr & Hf).
    rewrite worker_steps_shift, (worker_steps_finished pf k _ Hf).
    exists es. auto.
Qed.

Lemma no_device_no_sink_witness :
  exists w1,
    StartRecording "out.m4a" new_world = Returns (true, w1)
    /\ forall k,
        exists es,
          log (worker_steps no_microphone k w1) = log w1 ++ es
          /\ (forall url attrs hr,
                 ~ In (Call (MFCreateSinkWriterFromURL url attrs) hr) es)
          /\ ((1 <= k)%nat ->
              is_recording_ (plug (worker_steps no_microphone k w1)) = false
              /\ recording_thread_ (plug (worker_steps no_microphone k w1))
                 = Finished).
Proof.
  apply (no_device_no_sink no_microphone "out.m4a" new_world); reflexivity.
Defined.

(** C1, as stated, fails: with no capture device the method channel still
    answers [true] to [startRecording]. *)
Lemma start_without_device_returns_true :
  deviceCount no_microphone = 0%nat
  /\ HandleMethodCall no_microphone 0 "startRecording"
       (Some (EncMap [(EncString "path", EncString "out.m4a")])) new_world
     = Returns (Success (EncBool true), started "out.m4a").
Proof. split; reflexivity. Qed.

(** C3 (amended).  [StartRecording] on an idle plugin returns [true] before
    any setup has run.  The worker's first quantum then makes the calls of
    the setup in the order device selection, source open, format
    negotiation, sink open, stream registration, begin-writing, up to and
    including the first call the setup depends on that fails (for the
    enumeration: that fails or finds no device), and
    - if there is no such call, it has made all of them and stands at the
      loop holding exactly the source reader and the sink writer,
      [is_recording_] still set;
    - if there is one, it has made no call after it, has released every COM
      reference it took, has both native pointers null again, and clears
      [is_recording_] as its last act; the caller of [StartRecording] is
      told nothing. *)
Theorem setup_in_order_and_undone_on_failure (pf : Platform) (path : string)
        (w : world) :
  is_recording_ (plug w) = false ->
  recording_thread_ (plug w) = NotJoinable ->
  source_reader_ (plug w) = None ->
  sink_writer_ (plug w) = None ->
  map stage_of (setup_calls pf path)
  = [Some DeviceSelection; Some DeviceSelection; Some SourceOpen;
     Some FormatNegotiation; Some FormatNegotiation; Some SinkOpen;
     Some StreamRegistration; Some StreamRegistration; Some BeginWritingStage]
  /\ filter principal (map fst (setup_steps pf path)) = setup_calls pf path
  /\ exists w1,
      StartRecording path w = Returns (true, w1)
      /\ exists es,
          calls_of es = attempted pf (setup_steps pf path)
          /\ if goes_through pf (setup_steps pf path)
             then
               log (worker_step pf w1) = log w1 ++ es
               /\ principal_calls es = setup_calls pf path
               /\ Forall (fun a => SUCCEEDED (hresult pf a) = true)
                         (setup_calls pf path)
               /\ live es = [SourceReader; SinkWriter]
               /\ plug (worker_step pf w1)
                  = mkPlugin path true false (AtLoopHead (stream_index pf) 0 0)
                             (Some SourceReader) (Some SinkWriter)
             else
               log (worker_step pf w1) = log w1 ++ es ++ [StoreIsRecording false]
               /\ is_prefix (principal_calls es) (setup_calls pf path)
               /\ live es = []
               /\ is_recording_ (plug (worker_step pf w1)) = false
               /\ source_reader_ (plug (worker_step pf w1)) = None
               /\ sink_writer_ (plug (worker_step pf w1)) = None
               /\ recording_thread_ (plug (worker_step pf w1)) = Finished.
Proof.
  intros Hrec Ht Hreader Hsink. split; [ reflexivity | ].
  split.
  { unfold setup_steps, setup_calls, sink_steps, sink_calls.
    destruct (SUCCEEDED (hresult pf (MFCreateAttributes pSinkAttributes)));
      reflexivity. }
  rewrite (StartRecording_idle path w Hrec Ht), Hreader, Hsink.
  eexists. split; [ reflexivity | ].
  match goal with |- context [worker_step pf ?v] => set (w1 := v) end.
  pose proof (worker_step_launched pf w1 eq_refl) as Harm.
  pose proof (worker_step_launched_decided pf w1 eq_refl) as Hdec.
  change (current_file_path_ (plug w1)) with path in Harm, Hdec.
  change (source_reader_ (plug w1)) with (@None resource) in Harm.
  change (sink_writer_ (plug w1)) with (@None resource) in Harm.
  change (plug w1)
    with (mkPlugin path true false Launched None None) in Harm.
  generalize dependent (worker_step pf w1). intros w2 Harm Hdec.
  destruct Harm as [es [H|H]], Hdec as (es' & Hl' & Hcalls' & Hgo).
  - destruct H as (Hl & Hth & _ & _ & _ & Hplug & Hcalls & Hok & Hlive).
    rewrite Hl in Hl'. apply app_inv_head in Hl'. subst es'.
    exists es. split; [ exact Hcalls' | ].
    destruct (goes_through pf (setup_steps pf path)).
    + split; [ exact Hl | ]. split; [ exact Hcalls | ].
      split; [ exact Hok | ]. split; [ exact Hlive | ].
      exact (Hplug eq_refl eq_refl).
    + destruct Hgo as [Hgo _]. rewrite (Hgo eq_refl) in Hth. discriminate Hth.
  - destruct H as (Hl & Hth & _ & _ & Hr & Hplug & Hpre & Hlive).
    rewrite Hl in Hl'. apply app_inv_head in Hl'. subst es'.
    rewrite calls_of_app in Hcalls'. cbn [calls_of] in Hcalls'.
    rewrite app_nil_r in Hcalls'.
    exists es. split; [ exact Hcalls' | ].
    destruct Hgo as [_ Hgo]. rewrite (Hgo Hth).
    specialize (Hplug eq_refl eq_refl).
    split; [ exact Hl | ]. split; [ exact Hpre | ].
    split; [ exact Hlive | ]. split; [ exact Hr | ].
    split; [ now rewrite Hplug | ]. split; [ now rewrite Hplug | exact Hth ].
Qed.

Lemma setup_in_order_and_undone_on_failure_witness :
  (exists w1 es,
      StartRecording "out.m4a" new_world = Returns (true, w1)
      /\ calls_of es
         = map fst (device_steps ++ source_steps ++ format_steps
                                 ++ sink_steps unwritable "out.m4a")
      /\ log (worker_step unwritable w1)
         = log w1 ++ es ++ [StoreIsRecording false]
      /\ live es = []
      /\ is_recording_ (plug (worker_step unwritable w1)) = false
      /\ recording_thread_ (plug (worker_step unwritable w1)) = Finished)
  /\ (exists w1 es,
         StartRecording "out.m4a" new_world = Returns (true, w1)
         /\ calls_of es = map fst (setup_steps healthy "out.m4a")
         /\ log (worker_step healthy w1) = log w1 ++ es
         /\ live es = [SourceReader; SinkWriter]
         /\ plug (worker_step healthy w1)
            = mkPlugin "out.m4a" true false (AtLoopHead 0 0 0)
                       (Some SourceReader) (Some SinkWriter)).
Proof.
  split.
  - destruct (setup_in_order_and_undone_on_failure unwritable "out.m4a"
                new_world eq_refl eq_refl eq_refl eq_refl)
      as (_ & _ & w1 & Hstart & es & Hcalls & Harm).
    assert (E : goes_through unwritable (setup_steps unwritable "out.m4a")
                = false) by (vm_compute; reflexivity).
    rewrite E in Harm.
    destruct Harm as (Hl & _ & Hlive & Hrec & _ & _ & Hth).
    exists w1, es. split; [ exact Hstart | ].
    split; [ rewrite Hcalls; vm_compute; reflexivity | ].
    split; [ exact Hl | ]. split; [ exact Hlive | ].
    split; [ exact Hrec | exact Hth ].
  - destruct (setup_in_order_and_undone_on_failure healthy "out.m4a"
                new_world eq_refl eq_refl eq_refl eq_refl)
      as (_ & _ & w1 & Hstart & es & Hcalls & Harm).
    assert (E : goes_through healthy (setup_steps healthy "out.m4a") = true)
      by (vm_compute; reflexivity).
    rewrite E in Harm.
    destruct Harm as (Hl & _ & _ & Hlive & Hplug).
    exists w1, es. split; [ exact Hstart | ].
    split; [ rewrite Hcalls; vm_compute; reflexivity | ].
    split; [ exact Hl | ]. split; [ exact Hlive | exact Hplug ].
Defined.

(** C3, as stated, fails: when the sink writer cannot be created the setup
    is aborted on the worker, but [startRecording] has answered [true]. *)
Lemma failed_setup_is_not_reported_to_start :
  HandleMethodCall unwritable 0 "startRecording"
    (Some (EncMap [(EncString "path", EncString "out.m4a")])) new_world
  = Returns (Success (EncBool true), started "out.m4a")
  /\ fst (setup unwritable (started "out.m4a")) = None
  /\ is_recording_ (plug (worker_step unwritable (started "out.m4a"))) = false.
Proof. repeat split; vm_compute; reflexivity. Qed.

(** C7 (amended).  Whatever the platform answers, every [AddStream] call
    the worker makes during setup carries the same media type: major type
    audio, subtype AAC, 16 bits per sample, 44100 samples per second,
    1 channel and an average of 16000 bytes per second, that is
    128000 bit/s; and a setup that reaches the loop has made that call. *)
Theorem registered_format (pf : Platform) (w : world) :
  recording_thread_ (plug w) = Launched ->
  exists es,
    log (worker_step pf w) = log w ++ es
    /\ (forall t hr,
           In (Call (AddStream t) hr) es ->
           t = [(MF_MT_MAJOR_TYPE, VGuid MFMediaType_Audio);
                (MF_MT_SUBTYPE, VGuid MFAudioFormat_AAC);
                (MF_MT_AUDIO_BITS_PER_SAMPLE, VUInt32 16);
                (MF_MT_AUDIO_SAMPLES_PER_SECOND, VUInt32 44100);
                (MF_MT_AUDIO_NUM_CHANNELS, VUInt32 1);
                (MF_MT_AUDIO_AVG_BYTES_PER_SECOND, VUInt32 16000)]
           /\ avg_bits_per_second t = Some 128000)
    /\ (recording_thread_ (plug (worker_step pf w)) <> Finished ->
        In (AddStream aac_target) (principal_calls es)).
Proof.
  intros Ht.
  assert (Hin : forall t, In (AddStream t)
                             (setup_calls pf (current_file_path_ (plug w))) ->
                          t = aac_target).
  { intros t. cbn. intuition (try discriminate). congruence. }
  destruct (worker_step_launched pf w Ht) as [es [H|H]].
  - destruct H as (Hl & Hth & _ & _ & _ & _ & Hcalls & _).
    exists es. split; [ exact Hl | ]. split.
    + intros t hr Hc.
      assert (t = aac_target) as ->.
      { apply Hin. rewrite <- Hcalls. now apply (principal_calls_In _ hr). }
      split; reflexivity.
    + intros _. rewrite Hcalls. cbn. intuition.
  - destruct H as (Hl & Hth & _ & _ & _ & _ & Hpre & _).
    exists (es ++ [StoreIsRecording false]). split; [ exact Hl | ]. split.
    + intros t hr [Hc|Hc]%in_app_iff; [ | cbn in Hc; intuition discriminate ].
      assert (t = aac_target) as ->.
      { apply Hin. eapply is_prefix_In; eauto.
        now apply (principal_calls_In _ hr). }
      split; reflexivity.
    + intros Hne. now rewrite Hth in Hne.
Qed.

Lemma registered_format_witness :
  exists es,
    log (worker_step healthy (started "out.m4a"))
    = log (started "out.m4a") ++ es
    /\ In (AddStream aac_target) (principal_calls es).
Proof.
  destruct (registered_format healthy (started "out.m4a") eq_refl)
    as (es & Hl & _ & Hin).
  exists es. split; [ exact Hl | ]. apply Hin.
  vm_compute. discriminate.
Defined.

(** C7, as stated, fails: the stream is added with an average of 16000
    bytes, not bits, per second; the bit rate it declares is 128 kbit/s. *)
Lemma registered_bit_rate_is_not_16_kbps :
  exists t,
    In (Call (AddStream t) S_OK) (log (worker_step healthy (started "out.m4a")))
    /\ avg_bits_per_second t = Some 128000
    /\ avg_bits_per_second t <> Some 16000.
Proof.
  exists aac_target. split; [ | split; [ reflexivity | discriminate ] ].
  apply (nth_error_In _ 35). vm_compute. reflexivity.
Qed.

(** C2 (the code departs from the claim).  The first pull reports the end
    of the stream: the worker finalizes the sink writer, releases both
    objects and returns, but [is_recording_] is still set, [IsRecording]
    answers [true] and a new [StartRecording] is refused. *)
Theorem end_of_stream_leaves_is_recording_set :
  let w := worker_steps unplugged 2 (started "out.m4a") in
  exit_reason unplugged (worker_steps unplugged 1 (started "out.m4a"))
  = Some EndOfStream
  /\ recording_thread_ (plug w) = Finished
  /\ (exists es, log w = es ++ teardown unplugged)
  /\ (forall k, IsRecording (worker_steps unplugged k w) = true)
  /\ StartRecording "next.m4a" w = Returns (false, w).
Proof.
  cbv zeta. split; [ vm_compute; reflexivity | ].
  split; [ vm_compute; reflexivity | ].
  split; [ | split; [ | vm_compute; reflexivity ] ].
  - exists (removelast (removelast (removelast
              (log (worker_steps unplugged 2 (started "out.m4a")))))).
    vm_compute. reflexivity.
  - intros k. rewrite worker_steps_finished; vm_compute; reflexivity.
Qed.

(** [find_path] is the lookup of the key "path". *)
Lemma find_path_In m v : find_path m = Some v -> In (EncString "path", v) m.
Proof.
  induction m as [|[k v'] m IH]; cbn [find_path]; [ discriminate | ].
  destruct k; try (intros H; right; exact (IH H)).
  destruct (String.eqb_spec s "path") as [->|Hne].
  - intros [= ->]. now left.
  - intros H. right. exact (IH H).
Qed.

Lemma find_path_first m v :
  NoDup (map fst m) -> In (EncString "path", v) m -> find_path m = Some v.
Proof.
  induction m as [|[k v'] m IH]; cbn [find_path map fst In]; [ tauto | ].
  intros Hnd [Heq|Hin].
  - injection Heq as -> ->. reflexivity.
  - inversion Hnd as [|? ? Hnotin Hnd']; subst.
    destruct k; try exact (IH Hnd' Hin).
    destruct (String.eqb_spec s "path") as [->|Hne]; [ | exact (IH Hnd' Hin) ].
    exfalso. apply Hnotin.
    exact (in_map fst m (EncString "path", v) Hin).
Qed.

(** C4 (amended).  [startRecording] calls [StartRecording] on a string and
    answers with the boolean that returns exactly when its arguments are a
    map with that string under the key "path", whatever the string, the
    empty one included; with any other arguments (no map, no key "path", a
    value under "path" that is not a string) it answers [INVALID_ARGS] and
    changes nothing. *)
Theorem start_recording_arguments (pf : Platform) (fuel : nat)
        (arguments : option EncodableValue) (w : world) :
  distinct_keys arguments ->
  (forall path,
      holds_path arguments path ->
      HandleMethodCall pf fuel "startRecording" arguments w
      = match StartRecording path w with
        | Returns (success, w') => Returns (Success (EncBool success), w')
        | Terminates => Terminates
        | Blocked => Blocked
        end)
  /\ ((forall path, ~ holds_path arguments path) ->
      HandleMethodCall pf fuel "startRecording" arguments w
      = Returns (Error "INVALID_ARGS" "Path is required", w)).
Proof.
  intros Hkeys. split.
  - intros path (m & -> & Hin).
    unfold HandleMethodCall. cbn [String.eqb Ascii.eqb Bool.eqb].
    now rewrite (find_path_first m _ (Hkeys m eq_refl) Hin).
  - intros Hnone.
    unfold HandleMethodCall. cbn [String.eqb Ascii.eqb Bool.eqb].
    destruct arguments as [[| | | | |m]|]; try reflexivity.
    destruct (find_path m) as [v|] eqn:Hfind; [ | reflexivity ].
    destruct v; try reflexivity.
    exfalso. apply (Hnone s). exists m. split; [ reflexivity | ].
    now apply find_path_In.
Qed.

Lemma start_recording_arguments_witness :
  HandleMethodCall healthy 0 "startRecording"
    (Some (EncMap [(EncString "pathology", EncString "out.m4a")])) new_world
  = Returns (Error "INVALID_ARGS" "Path is required", new_world)
  /\ HandleMethodCall healthy 0 "startRecording"
       (Some (EncMap [(EncString "path", EncInt 3)])) new_world
     = Returns (Error "INVALID_ARGS" "Path is required", new_world)
  /\ HandleMethodCall healthy 0 "startRecording"
       (Some (EncString "out.m4a")) new_world
     = Returns (Error "INVALID_ARGS" "Path is required", new_world)
  /\ HandleMethodCall healthy 0 "startRecording" None new_world
     = Returns (Error "INVALID_ARGS" "Path is required", new_world)
  /\ HandleMethodCall healthy 0 "startRecording"
       (Some (EncMap [(EncString "file", EncString "a.m4a");
                      (EncString "path", EncString "out.m4a")])) new_world
     = Returns (Success (EncBool true), started "out.m4a").
Proof.
  split; [ | split; [ | split; [ | split ] ] ].
  - apply (start_recording_arguments healthy 0
             (Some (EncMap [(EncString "pathology", EncString "out.m4a")]))
             new_world).
    + intros m [= <-]. repeat constructor. cbn. tauto.
    + intros path (m & [= <-] & Hin). cbn in Hin.
      destruct Hin as [Hin|[]]. discriminate Hin.
  - apply (start_recording_arguments healthy 0
             (Some (EncMap [(EncString "path", EncInt 3)])) new_world).
    + intros m [= <-]. repeat constructor. cbn. tauto.
    + intros path (m & [= <-] & Hin). cbn in Hin.
      destruct Hin as [Hin|[]]. discriminate Hin.
  - apply (start_recording_arguments healthy 0
             (Some (EncString "out.m4a")) new_world).
    + intros m Hm. discriminate Hm.
    + intros path (m & Hm & _). discriminate Hm.
  - apply (start_recording_arguments healthy 0 None new_world).
    + intros m Hm. discriminate Hm.
    + intros path (m & Hm & _). discriminate Hm.
  - apply (start_recording_arguments healthy 0
             (Some (EncMap [(EncString "file", EncString "a.m4a");
                            (EncString "path", EncString "out.m4a")]))
             new_world).
    + intros m [= <-]. repeat constructor; cbn; intuition discriminate.
    + exists [(EncString "file", EncString "a.m4a");
              (EncString "path", EncString "out.m4a")].
      split; [ reflexivity | ]. right. left. reflexivity.
Defined.

(** C4, as stated, fails: an empty path is accepted. *)
Lemma empty_path_is_accepted :
  HandleMethodCall healthy 0 "startRecording"
    (Some (EncMap [(EncString "path", EncString "")])) new_world
  = Returns (Success (EncBool true), started "").
Proof. reflexivity. Qed.

(** * More about the plugin *)

(** ** What is held at each control point *)

Lemma live_app l es : live (l ++ es) = live_from (live l) es.
Proof. apply live_from_app. Qed.

Lemma live_from_teardown pf :
  live_from [SourceReader; SinkWriter] (teardown pf) = [].
Proof. reflexivity. Qed.

Lemma worker_step_session_invariant pf w :
  clean_reads pf -> session_invariant w -> session_invariant (worker_step pf w).
Proof.
  intros Hclean. unfold session_invariant.
  destruct (recording_thread_ (plug w)) as [| |streamIndex i j|] eqn:Ht.
  - intros H. unfold worker_step. now rewrite Ht, Ht.
  - intros (Hlive & Hrec & Hr & Hs).
    destruct (worker_step_launched pf w Ht) as [es [H|H]].
    + destruct H as (Hl & Hth & _ & _ & _ & Hplug & _ & _ & Hes).
      rewrite Hth, Hl, live_app, Hlive, (Hplug Hr Hs). cbn.
      repeat split; auto.
    + destruct H as (Hl & Hth & _ & _ & _ & Hplug & _ & Hes).
      rewrite Hth, Hl, app_assoc, !live_app, Hlive, (Hplug Hr Hs).
      unfold live in Hes. rewrite Hes. cbn. auto.
  - intros (Hlive & Hrec & Hr & Hs).
    rewrite (worker_step_at_loop_head pf w _ _ _ Ht).
    destruct w as [p l]. cbn [plug log] in *.
    destruct (stop_requested_ p) eqn:Hstop.
    + rewrite (iteration_stop _ _ _ _ _ _ Hstop).
      rewrite (after_loop_owned pf p _ Hs Hr). cbn.
      rewrite <- app_assoc, live_app, Hlive. cbn. auto.
    + rewrite (iteration_go _ _ _ _ _ _ Hstop). cbv zeta.
      unfold got_sample.
      destruct (read_sample pf i) as [s|] eqn:Hsample.
      * destruct (Hclean i) as [Hok Hflag]; [ congruence | ].
        rewrite (FAILED_negb (hresult pf (ReadSample i))), Hok, Hflag.
        cbn [negb Z.eqb].
        destruct (FAILED (hresult pf (WriteSample j streamIndex s)));
          cbv beta iota;
          rewrite ?(after_loop_owned pf p _ Hs Hr);
          cbn [at_point plug log snd recording_thread_ set_recording_thread];
          rewrite <- ?app_assoc, live_app, Hlive; cbn;
          rewrite Nat.eqb_refl; auto.
      * destruct (FAILED (hresult pf (ReadSample i)));
          [ | destruct (negb (Z.land (read_flags pf i)
                                MF_SOURCE_READERF_ENDOFSTREAM =? 0)) ];
          cbv beta iota;
          rewrite ?(after_loop_owned pf p _ Hs Hr);
          cbn [at_point plug log snd recording_thread_ set_recording_thread];
          rewrite <- ?app_assoc, live_app, Hlive; cbn; auto.
  - intros H. unfold worker_step. now rewrite Ht, Ht.
Qed.

Lemma StartRecording_session_invariant path w r w' :
  session_invariant w ->
  StartRecording path w = Returns (r, w') ->
  session_invariant w'.
Proof.
  unfold StartRecording. intros Hinv.
  destruct (is_recording_ (plug w)) eqn:Hrec.
  - intros H. injection H as _ <-. exact Hinv.
  - cbn. destruct (recording_thread_ (plug w)) eqn:Ht; cbn; try discriminate.
    intros H. injection H as _ <-.
    unfold session_invariant in *. rewrite Ht in Hinv. cbn.
    destruct Hinv as (Hlive & Hr & Hs).
    rewrite live_app, Hlive. cbn. auto.
Qed.

Lemma join_session_invariant pf fuel : forall w w',
  clean_reads pf ->
  session_invariant w ->
  join pf fuel w = Some w' ->
  session_invariant w' /\ recording_thread_ (plug w') = NotJoinable.
Proof.
  induction fuel as [|fuel IH]; intros w w' Hclean Hinv Hjoin.
  - cbn in Hjoin.
    destruct (recording_thread_ (plug w)) eqn:Ht; try discriminate;
      injection Hjoin as <-; unfold session_invariant in *; cbn;
      rewrite ?Ht in *; split; auto.
  - destruct (recording_thread_ (plug w)) eqn:Ht.
    + cbn in Hjoin. rewrite Ht in Hjoin. injection Hjoin as <-. split; auto.
    + rewrite join_running in Hjoin by (rewrite Ht; discriminate).
      apply (IH (worker_step pf w) w' Hclean);
        [ now apply worker_step_session_invariant | exact Hjoin ].
    + rewrite join_running in Hjoin by (rewrite Ht; discriminate).
      apply (IH (worker_step pf w) w' Hclean);
        [ now apply worker_step_session_invariant | exact Hjoin ].
    + rewrite (join_finished pf _ w Ht) in Hjoin. injection Hjoin as <-.
      unfold session_invariant in *. cbn. rewrite Ht in Hinv. split; auto.
Qed.

Lemma StopRecording_session_invariant pf fuel w path w' :
  clean_reads pf ->
  session_invariant w ->
  StopRecording pf fuel w = Returns (path, w') ->
  session_invariant w'.
Proof.
  intros Hclean Hinv. unfold StopRecording.
  destruct (is_recording_ (plug w)); cbn [negb].
  - set (w1 := mkWorld (set_stop_requested true (plug w)) (log w)).
    assert (H1 : session_invariant w1) by exact Hinv.
    destruct (joinable (recording_thread_ (plug w1))) eqn:Hj.
    + destruct (join pf fuel w1) as [w2|] eqn:Hjoin; [ | discriminate ].
      destruct (join_session_invariant pf fuel w1 w2 Hclean H1 Hjoin) as [H2 Ht2].
      intros H. injection H as _ <-.
      unfold session_invariant, live in *. cbn. rewrite Ht2 in *.
      destruct H2 as (Hlive & Hr & Hs). rewrite live_from_app, Hlive. cbn. auto.
    + intros H. injection H as _ <-.
      unfold session_invariant, live in *. cbn in *.
      destruct (recording_thread_ (plug w)); try discriminate.
      destruct H1 as (Hlive & Hr & Hs). rewrite live_from_app, Hlive. cbn. auto.
  - intros H. injection H as _ <-. exact Hinv.
Qed.

(** X1.  On a platform with clean reads, whatever the control thread and the
    scheduler do from the freshly constructed plugin, as long as the
    process lives: the worker holds exactly the source reader and the sink
    writer while it stands at the loop head, with both pointer fields set
    and [is_recording_] set; and once it has returned or been joined, or
    before it has run, no COM reference is held and both pointers are
    null. *)
Theorem no_reference_outlives_the_worker (pf : Platform) (fuel : nat)
        (acts : list action) (w : world) :
  clean_reads pf ->
  run pf fuel acts new_world = Returns w ->
  session_invariant w.
Proof.
  intros Hclean.
  assert (Hgen : forall acts v, session_invariant v ->
                   run pf fuel acts v = Returns w -> session_invariant w).
  { clear acts. induction acts as [|a acts IH]; intros v Hv Hrun.
    - cbn in Hrun. now injection Hrun as <-.
    - cbn [run] in Hrun.
      destruct (perform pf fuel a v) as [v'| |] eqn:Hp; try discriminate.
      apply (IH v'); [ | exact Hrun ].
      destruct a as [path| |]; cbn in Hp.
      + destruct (StartRecording path v) as [[r v'']| |] eqn:Hs;
          try discriminate.
        injection Hp as <-. eapply StartRecording_session_invariant; eauto.
      + destruct (StopRecording pf fuel v) as [[r v'']| |] eqn:Hs;
          try discriminate.
        injection Hp as <-. eapply StopRecording_session_invariant; eauto.
      + injection Hp as <-. now apply worker_step_session_invariant. }
  apply Hgen. cbn. auto.
Qed.

Lemma clean_reads_healthy : clean_reads healthy.
Proof. intros i _. split; reflexivity. Qed.

Lemma no_reference_outlives_the_worker_witness :
  session_invariant
    (worker_steps healthy 3 (started "out.m4a")).
Proof.
  apply (no_reference_outlives_the_worker healthy 2
           [DoStart "out.m4a"; DoWorker; DoWorker; DoWorker]).
  - exact clean_reads_healthy.
  - vm_compute. reflexivity.
Defined.

(** ** Stopping, restarting, destroying *)

Lemma join_kept pf fuel : forall w w',
  join pf fuel w = Some w' ->
  current_file_path_ (plug w') = current_file_path_ (plug w)
  /\ stop_requested_ (plug w') = stop_requested_ (plug w)
  /\ exists es, log w' = log w ++ es.
Proof.
  induction fuel as [|fuel IH]; intros w w' Hjoin.
  - cbn in Hjoin.
    destruct (recording_thread_ (plug w)); try discriminate;
      injection Hjoin as <-; repeat split; auto;
      exists []; cbn; now rewrite app_nil_r.
  - destruct (recording_thread_ (plug w)) eqn:Ht.
    + cbn in Hjoin. rewrite Ht in Hjoin. injection Hjoin as <-.
      repeat split; auto. exists []. now rewrite app_nil_r.
    + rewrite join_running in Hjoin by (rewrite Ht; discriminate).
      destruct (IH _ _ Hjoin) as (Hp & Hs & es & Hl).
      destruct (worker_step_kept pf w) as (Hp' & Hs' & _ & es' & Hl').
      repeat split; try congruence.
      exists (es' ++ es). rewrite Hl, Hl'. now rewrite app_assoc.
    + rewrite join_running in Hjoin by (rewrite Ht; discriminate).
      destruct (IH _ _ Hjoin) as (Hp & Hs & es & Hl).
      destruct (worker_step_kept pf w) as (Hp' & Hs' & _ & es' & Hl').
      repeat split; try congruence.
      exists (es' ++ es). rewrite Hl, Hl'. now rewrite app_assoc.
    + rewrite (join_finished pf _ w Ht) in Hjoin. injection Hjoin as <-.
      repeat split; auto. exists []. cbn. now rewrite app_nil_r.
Qed.

(** [StopRecording] on a plugin whose [is_recording_] is set. *)
Lemma StopRecording_active pf fuel w :
  is_recording_ (plug w) = true ->
  (2 <= fuel)%nat ->
  exists w',
    StopRecording pf fuel w = Returns (current_file_path_ (plug w), w')
    /\ is_recording_ (plug w') = false
    /\ current_file_path_ (plug w') = ""
    /\ recording_thread_ (plug w') = NotJoinable
    /\ stop_requested_ (plug w') = true.
Proof.
  intros Hrec Hfuel. unfold StopRecording. rewrite Hrec. cbn [negb].
  set (w1 := mkWorld (set_stop_requested true (plug w)) (log w)).
  destruct (joinable (recording_thread_ (plug w1))) eqn:Hj.
  - destruct (join_stopped pf fuel w1 eq_refl Hj Hfuel)
      as (w2 & Hjoin & Hth & Hpath & _).
    destruct (join_kept pf fuel w1 w2 Hjoin) as (_ & Hstop & _).
    rewrite Hjoin. eexists. split.
    { cbn. cbn in Hpath. rewrite Hpath. reflexivity. }
    cbn. repeat split; auto.
  - eexists. split; [ reflexivity | ].
    cbn. repeat split.
    cbn in Hj. destruct (recording_thread_ (plug w)); try discriminate; reflexivity.
Qed.

(** X2.  Restart.  [StopRecording] on a recording plugin returns the stored
    path and leaves the plugin ready for the next session: any
    [StartRecording] after it returns [true], launches a worker, and resets
    the stop request that is still set from the stop. *)
Theorem restart_after_stop (pf : Platform) (fuel : nat) (w : world) :
  is_recording_ (plug w) = true ->
  (2 <= fuel)%nat ->
  exists w1,
    StopRecording pf fuel w = Returns (current_file_path_ (plug w), w1)
    /\ stop_requested_ (plug w1) = true
    /\ forall path,
        exists w2,
          StartRecording path w1 = Returns (true, w2)
          /\ recording_thread_ (plug w2) = Launched
          /\ stop_requested_ (plug w2) = false
          /\ is_recording_ (plug w2) = true
          /\ current_file_path_ (plug w2) = path.
Proof.
  intros Hrec Hfuel.
  destruct (StopRecording_active pf fuel w Hrec Hfuel)
    as (w1 & Hstop & Hrec1 & _ & Hth & Hflag).
  exists w1. split; [ exact Hstop | ]. split; [ exact Hflag | ].
  intros path. rewrite (StartRecording_idle path w1 Hrec1 Hth).
  eexists. split; [ reflexivity | ]. cbn. auto.
Qed.

Lemma restart_after_stop_witness :
  exists w1,
    StopRecording healthy 2 (worker_steps healthy 3 (started "a.m4a"))
    = Returns ("a.m4a", w1)
    /\ stop_requested_ (plug w1) = true
    /\ forall path,
        exists w2,
          StartRecording path w1 = Returns (true, w2)
          /\ recording_thread_ (plug w2) = Launched
          /\ stop_requested_ (plug w2) = false
          /\ is_recording_ (plug w2) = true
          /\ current_file_path_ (plug w2) = path.
Proof.
  apply (restart_after_stop healthy 2 (worker_steps healthy 3 (started "a.m4a")));
    [ reflexivity | lia ].
Defined.

(** X3.  The worker of an aborted setup is never joined.  Once the worker has
    returned with [is_recording_] cleared, [StopRecording] returns the
    empty string without joining it, whatever the fuel; the next
    [StartRecording] then assigns to a joinable [std::thread] and the
    destructor destroys one: either terminates the process. *)
Theorem aborted_worker_is_never_joined (pf : Platform) (w : world) :
  recording_thread_ (plug w) = Finished ->
  is_recording_ (plug w) = false ->
  (forall fuel, StopRecording pf fuel w = Returns ("", w))
  /\ (forall path, StartRecording path w = Terminates)
  /\ (forall fuel, destroy_plugin pf fuel w = Terminates).
Proof.
  intros Ht Hrec. repeat split.
  - intros fuel. unfold StopRecording. now rewrite Hrec.
  - intros path. unfold StartRecording. rewrite Hrec. cbn. now rewrite Ht.
  - intros fuel. unfold destroy_plugin. rewrite Hrec, Ht. reflexivity.
Qed.

Lemma aborted_worker_is_never_joined_witness :
  (forall fuel,
      StopRecording no_microphone fuel
        (worker_step no_microphone (started "out.m4a"))
      = Returns ("", worker_step no_microphone (started "out.m4a")))
  /\ (forall path,
         StartRecording path (worker_step no_microphone (started "out.m4a"))
         = Terminates)
  /\ (forall fuel,
         destroy_plugin no_microphone fuel
           (worker_step no_microphone (started "out.m4a"))
         = Terminates).
Proof.
  apply (aborted_worker_is_never_joined no_microphone
           (worker_step no_microphone (started "out.m4a")));
    vm_compute; reflexivity.
Defined.

(** X4.  Stop without a session.  With [is_recording_] clear, [StopRecording]
    returns the empty string and the method channel answers [NO_RECORDER];
    the plugin and the log are exactly as before. *)
Theorem stop_without_session_is_a_no_op (pf : Platform) (fuel : nat)
        (arguments : option EncodableValue) (w : world) :
  is_recording_ (plug w) = false ->
  StopRecording pf fuel w = Returns ("", w)
  /\ HandleMethodCall pf fuel "stopRecording" arguments w
     = Returns (Error "NO_RECORDER" "No active recording", w).
Proof.
  intros Hrec. unfold HandleMethodCall, StopRecording. cbn. now rewrite Hrec.
Qed.

Lemma stop_without_session_is_a_no_op_witness :
  StopRecording healthy 0 new_world = Returns ("", new_world)
  /\ HandleMethodCall healthy 0 "stopRecording" None new_world
     = Returns (Error "NO_RECORDER" "No active recording", new_world).
Proof.
  apply (stop_without_session_is_a_no_op healthy 0 None new_world).
  reflexivity.
Defined.

(** X5.  What [stopRecording] answers for a running session.  The session is
    ended either way; the answer is the stored path, except that a session
    started on the empty path is answered with [NO_RECORDER]. *)
Theorem stop_recording_answer (pf : Platform) (fuel : nat)
        (arguments : option EncodableValue) (w : world) :
  is_recording_ (plug w) = true ->
  (2 <= fuel)%nat ->
  exists w',
    HandleMethodCall pf fuel "stopRecording" arguments w
    = Returns (if String.eqb (current_file_path_ (plug w)) ""
               then Error "NO_RECORDER" "No active recording"
               else Success (EncString (current_file_path_ (plug w))),
               w')
    /\ is_recording_ (plug w') = false
    /\ recording_thread_ (plug w') = NotJoinable.
Proof.
  intros Hrec Hfuel.
  destruct (StopRecording_active pf fuel w Hrec Hfuel)
    as (w' & Hstop & Hrec' & _ & Hth & _).
  exists w'. unfold HandleMethodCall. cbn [String.eqb Ascii.eqb Bool.eqb].
  rewrite Hstop.
  destruct (String.eqb (current_file_path_ (plug w)) ""); cbn; auto.
Qed.

Lemma stop_recording_answer_witness :
  exists w',
    HandleMethodCall healthy 2 "stopRecording" None
      (worker_steps healthy 2 (started ""))
    = Returns (Error "NO_RECORDER" "No active recording", w')
    /\ is_recording_ (plug w') = false
    /\ recording_thread_ (plug w') = NotJoinable.
Proof.
  apply (stop_recording_answer healthy 2 None
           (worker_steps healthy 2 (started "")));
    [ reflexivity | lia ].
Defined.

(** X6.  Only [startRecording] and [stopRecording] touch the plugin.  Every
    other method name leaves the plugin and the log exactly as they were:
    [hasPermission] answers [true] whatever the state, [isRecording]
    answers the flag, anything else is [NotImplemented]. *)
Theorem other_methods_change_nothing (pf : Platform) (fuel : nat)
        (method : string) (arguments : option EncodableValue) (w : world) :
  method <> "startRecording" ->
  method <> "stopRecording" ->
  HandleMethodCall pf fuel method arguments w
  = Returns (if String.eqb method "hasPermission" then Success (EncBool true)
             else if String.eqb method "isRecording"
                  then Success (EncBool (is_recording_ (plug w)))
                  else NotImplemented,
             w).
Proof.
  intros Hstart%String.eqb_neq Hstop%String.eqb_neq.
  unfold HandleMethodCall. rewrite Hstart, Hstop.
  destruct (String.eqb method "hasPermission"); [ reflexivity | ].
  destruct (String.eqb method "isRecording"); reflexivity.
Qed.

Lemma other_methods_change_nothing_witness :
  HandleMethodCall healthy 0 "pauseRecording" None
    (worker_steps healthy 2 (started "out.m4a"))
  = Returns (NotImplemented, worker_steps healthy 2 (started "out.m4a")).
Proof.
  apply (other_methods_change_nothing healthy 0 "pauseRecording" None
           (worker_steps healthy 2 (started "out.m4a")));
    discriminate.
Defined.

(** ** Samples *)

(** X7.  A sample is pushed once and released at once.  When the pull hands
    out a sample, the worker pushes it to the stream [AddStream] named and
    releases it right after the push, whether the push succeeded or not; a
    push that succeeded puts the worker back at the loop head with both
    counters advanced, a push that failed ends the loop without touching
    [is_recording_]. *)
Theorem sample_is_pushed_then_released (pf : Platform) (w : world)
        (streamIndex : DWORD) (i j : nat) (s : Sample) :
  recording_thread_ (plug w) = AtLoopHead streamIndex i j ->
  stop_requested_ (plug w) = false ->
  SUCCEEDED (hresult pf (ReadSample i)) = true ->
  Z.land (read_flags pf i) MF_SOURCE_READERF_ENDOFSTREAM = 0 ->
  read_sample pf i = Some s ->
  let hw := hresult pf (WriteSample j streamIndex s) in
  exists rest,
    log (worker_step pf w)
    = log w ++ [StopFlagRead false;
                Call (ReadSample i) (hresult pf (ReadSample i));
                Acquire (pSample i);
                Call (WriteSample j streamIndex s) hw;
                Release (pSample i)] ++ rest
    /\ is_recording_ (plug (worker_step pf w)) = is_recording_ (plug w)
    /\ (if SUCCEEDED hw
        then rest = []
             /\ plug (worker_step pf w)
                = set_recording_thread (AtLoopHead streamIndex (S i) (S j))
                                       (plug w)
        else recording_thread_ (plug (worker_step pf w)) = Finished).
Proof.
  intros Ht Hstop Hok Hflag Hsample hw. subst hw.
  rewrite (worker_step_at_loop_head pf w _ _ _ Ht).
  destruct w as [p l]. cbn [plug log] in *.
  rewrite (iteration_go _ _ _ _ _ _ Hstop). cbv zeta.
  rewrite (FAILED_negb (hresult pf (ReadSample i))), Hok, Hflag.
  unfold got_sample. rewrite Hsample. cbn [negb Z.eqb].
  rewrite (FAILED_negb (hresult pf (WriteSample j streamIndex s))).
  destruct (SUCCEEDED (hresult pf (WriteSample j streamIndex s)));
    cbn [negb]; cbv beta iota.
  - exists []. cbn. rewrite <- !app_assoc. cbn. auto.
  - destruct (after_loop_effect pf p
                (l ++ [StopFlagRead false;
                       Call (ReadSample i) (hresult pf (ReadSample i));
                       Acquire (pSample i);
                       Call (WriteSample j streamIndex s)
                            (hresult pf (WriteSample j streamIndex s));
                       Release (pSample i)])) as (es & E & _).
    exists es.
    replace ((l ++ [StopFlagRead false;
                    Call (ReadSample i) (hresult pf (ReadSample i))]
                ++ [Acquire (pSample i)])
               ++ [Call (WriteSample j streamIndex s)
                        (hresult pf (WriteSample j streamIndex s));
                   Release (pSample i)])
      with (l ++ [StopFlagRead false;
                  Call (ReadSample i) (hresult pf (ReadSample i));
                  Acquire (pSample i);
                  Call (WriteSample j streamIndex s)
                       (hresult pf (WriteSample j streamIndex s));
                  Release (pSample i)])
      by (rewrite <- !app_assoc; reflexivity).
    rewrite E. cbn. rewrite <- !app_assoc. cbn. auto.
Qed.

Lemma sample_is_pushed_then_released_witness :
  exists rest,
    log (worker_step write_error (worker_step write_error (started "out.m4a")))
    = log (worker_step write_error (started "out.m4a"))
        ++ [StopFlagRead false; Call (ReadSample 0) S_OK; Acquire (pSample 0);
            Call (WriteSample 0 0 0) E_FAIL; Release (pSample 0)] ++ rest
    /\ is_recording_
         (plug (worker_step write_error
                  (worker_step write_error (started "out.m4a"))))
       = true
    /\ recording_thread_
         (plug (worker_step write_error
                  (worker_step write_error (started "out.m4a"))))
       = Finished.
Proof.
  apply (sample_is_pushed_then_released write_error
           (worker_step write_error (started "out.m4a")) 0 0 0 0);
    reflexivity.
Defined.

Lemma good_iteration pf w streamIndex i j :
  recording_thread_ (plug w) = AtLoopHead streamIndex i j ->
  stop_requested_ (plug w) = false ->
  good_run pf streamIndex i j 1 ->
  exists es,
    worker_step pf w
    = mkWorld (set_recording_thread (AtLoopHead streamIndex (S i) (S j)) (plug w))
              (log w ++ es)
    /\ List.length (filter is_pull es) = 1%nat
    /\ List.length (filter is_push es) = 1%nat.
Proof.
  intros Ht Hstop (Hok & Hflag & (s & Hsample & Hw) & _).
  rewrite (worker_step_at_loop_head pf w _ _ _ Ht).
  destruct w as [p l]. cbn [plug log] in *.
  rewrite (iteration_go _ _ _ _ _ _ Hstop). cbv zeta.
  rewrite (FAILED_negb (hresult pf (ReadSample i))), Hok, Hflag.
  unfold got_sample. rewrite Hsample. cbn [negb Z.eqb].
  rewrite (FAILED_negb (hresult pf (WriteSample j streamIndex s))), Hw.
  cbn [negb]. cbv beta iota.
  eexists. split; [ | split ].
  - unfold at_point. cbn [plug log]. rewrite <- !app_assoc. reflexivity.
  - reflexivity.
  - reflexivity.
Qed.

(** X8.  Samples are counted one to one.  While the stop request is clear
    and the next [k] pulls and pushes go well, [k] quanta leave the worker
    at the loop head with both counters advanced by [k], having made
    exactly [k] pulls and [k] pushes, and nothing else in the plugin has
    changed. *)
Theorem good_quanta_push_every_sample (pf : Platform) (k : nat) :
  forall (w : world) (streamIndex : DWORD) (i j : nat),
    recording_thread_ (plug w) = AtLoopHead streamIndex i j ->
    stop_requested_ (plug w) = false ->
    good_run pf streamIndex i j k ->
    exists es,
      worker_steps pf k w
      = mkWorld (set_recording_thread
                   (AtLoopHead streamIndex (i + k) (j + k)) (plug w))
                (log w ++ es)
      /\ List.length (filter is_pull es) = k
      /\ List.length (filter is_push es) = k.
Proof.
  induction k as [|k IH]; intros w streamIndex i j Ht Hstop Hgood.
  - exists []. rewrite !Nat.add_0_r, app_nil_r. cbn.
    destruct w as [p l]. destruct p. cbn in *. subst. auto.
  - rewrite worker_steps_shift.
    destruct Hgood as (Hok & Hflag & Hs & Hrest).
    destruct (good_iteration pf w streamIndex i j Ht Hstop) as (es1 & E1 & Hp1 & Hq1).
    { cbn. auto. }
    rewrite E1.
    destruct (IH (mkWorld (set_recording_thread
                             (AtLoopHead streamIndex (S i) (S j)) (plug w))
                          (log w ++ es1))
                 streamIndex (S i) (S j) eq_refl Hstop Hrest)
      as (es2 & E2 & Hp2 & Hq2).
    exists (es1 ++ es2). rewrite E2. cbn [plug log].
    rewrite !filter_app, !length_app, Hp1, Hq1, Hp2, Hq2.
    rewrite <- !Nat.add_succ_comm, app_assoc. cbn. auto.
Qed.

Lemma good_quanta_push_every_sample_witness :
  exists es,
    worker_steps healthy 10 (worker_step healthy (started "out.m4a"))
    = mkWorld (set_recording_thread (AtLoopHead 0 10 10)
                 (plug (worker_step healthy (started "out.m4a"))))
              (log (worker_step healthy (started "out.m4a")) ++ es)
    /\ List.length (filter is_pull es) = 10%nat
    /\ List.length (filter is_push es) = 10%nat.
Proof.
  apply (good_quanta_push_every_sample healthy 10
           (worker_step healthy (started "out.m4a")) 0 0 0);
    [ reflexivity | reflexivity | ].
  cbn. repeat split; eauto.
Defined.

(** X9.  The destructor.  On a platform with clean reads and a plugin in a
    state of the invariant: if [is_recording_] is set, the destructor asks
    the worker to stop and joins it, after which nothing is held, both
    pointers are null and the thread is not joinable, so the members are
    destroyed without harm; if it is clear and no worker was left
    unjoined, the destructor changes nothing. *)
Theorem destructor_joins_the_worker (pf : Platform) (fuel : nat) (w : world) :
  clean_reads pf ->
  session_invariant w ->
  (2 <= fuel)%nat ->
  (is_recording_ (plug w) = true ->
   exists w',
     destroy_plugin pf fuel w = Returns w'
     /\ recording_thread_ (plug w') = NotJoinable
     /\ stop_requested_ (plug w') = true
     /\ live (log w') = []
     /\ source_reader_ (plug w') = None
     /\ sink_writer_ (plug w') = None)
  /\ (is_recording_ (plug w) = false ->
      recording_thread_ (plug w) = NotJoinable ->
      destroy_plugin pf fuel w = Returns w).
Proof.
  intros Hclean Hinv Hfuel. split.
  - intros Hrec. unfold destroy_plugin. rewrite Hrec.
    set (w1 := mkWorld (set_stop_requested true (plug w)) (log w)).
    assert (H1 : session_invariant w1) by exact Hinv.
    destruct (joinable (recording_thread_ (plug w1))) eqn:Hj.
    + destruct (join_stopped pf fuel w1 eq_refl Hj Hfuel)
        as (w2 & Hjoin & Hth & _).
      destruct (join_kept pf fuel w1 w2 Hjoin) as (_ & Hstop & _).
      destruct (join_session_invariant pf fuel w1 w2 Hclean H1 Hjoin) as [H2 _].
      rewrite Hjoin, Hth. cbn [joinable]. exists w2.
      unfold session_invariant in H2. rewrite Hth in H2.
      destruct H2 as (Hlive & Hr & Hs). repeat split; auto.
    + rewrite Hj. exists w1.
      unfold session_invariant in H1.
      destruct (recording_thread_ (plug w1)) eqn:Ht; try discriminate.
      destruct H1 as (Hlive & Hr & Hs). repeat split; auto.
  - intros Hrec Ht. unfold destroy_plugin. now rewrite Hrec, Ht.
Qed.

Lemma destructor_joins_the_worker_witness :
  exists w',
    destroy_plugin healthy 2 (worker_steps healthy 3 (started "out.m4a"))
    = Returns w'
    /\ recording_thread_ (plug w') = NotJoinable
    /\ stop_requested_ (plug w') = true
    /\ live (log w') = []
    /\ source_reader_ (plug w') = None
    /\ sink_writer_ (plug w') = None.
Proof.
  apply (destructor_joins_the_worker healthy 2
           (worker_steps healthy 3 (started "out.m4a"))).
  - intros i _. split; reflexivity.
  - vm_compute. repeat split; reflexivity.
  - lia.
  - reflexivity.
Defined.

(** ** Arguments of the setup calls *)

Lemma c_str_no_nul w : ~ In 0 (c_str w).
Proof.
  induction w as [|c w IH]; cbn [c_str]; [ tauto | ].
  destruct (Z.eqb_spec c 0) as [->|Hne]; cbn [In]; [ tauto | ].
  intros [H|H]; [ congruence | exact (IH H) ].
Qed.

Lemma c_str_whole w : ~ In 0 w -> c_str w = w.
Proof.
  induction w as [|c w IH]; cbn [c_str In]; [ reflexivity | ].
  intros Hno. destruct (Z.eqb_spec c 0) as [->|Hne]; [ tauto | ].
  rewrite IH; tauto.
Qed.

Lemma setup_call_is_listed pf w es a hr :
  is_prefix (principal_calls es) (setup_calls pf (current_file_path_ (plug w))) ->
  principal a = true ->
  In (Call a hr) (es ++ [StoreIsRecording false]) ->
  In a (setup_calls pf (current_file_path_ (plug w))).
Proof.
  intros Hpre Hp [Hin|Hin]%in_app_iff.
  - eapply is_prefix_In; eauto using principal_calls_In.
  - cbn in Hin. intuition discriminate.
Qed.

Ltac listed_call H :=
  cbn in H;
  repeat (destruct H as [H|H]; try discriminate);
  try contradiction;
  injection H; intros; subst; auto.

(** X10.  What the reader and the sink are configured with.  Whatever the
    platform answers, during setup the reader is only ever asked for
    audio/PCM; the sink writer is only ever created on the stored path as
    [StringToWString] converts it and as a NUL-terminated string carries
    it, that is up to its first NUL, so on the whole converted path when
    that holds no NUL (and with the attribute store exactly when that was
    created); and the sink's input type is only ever set to the type the
    reader actually reported, on the stream index [AddStream] returned. *)
Theorem setup_call_arguments (pf : Platform) (w : world) :
  recording_thread_ (plug w) = Launched ->
  exists es,
    log (worker_step pf w) = log w ++ es
    /\ (forall t hr,
           In (Call (SetCurrentMediaType t) hr) es ->
           t = [(MF_MT_MAJOR_TYPE, VGuid MFMediaType_Audio);
                (MF_MT_SUBTYPE, VGuid MFAudioFormat_PCM)])
    /\ (forall url attrs hr,
           In (Call (MFCreateSinkWriterFromURL url attrs) hr) es ->
           url = c_str (StringToWString pf (current_file_path_ (plug w)))
           /\ ~ In 0 url
           /\ (~ In 0 (StringToWString pf (current_file_path_ (plug w))) ->
               url = StringToWString pf (current_file_path_ (plug w)))
           /\ attrs = SUCCEEDED (hresult pf (MFCreateAttributes pSinkAttributes)))
    /\ (forall streamIndex t hr,
           In (Call (SetInputMediaType streamIndex t) hr) es ->
           streamIndex = stream_index pf /\ t = actual_type pf).
Proof.
  intros Ht.
  assert (Hlisted : exists es,
             log (worker_step pf w) = log w ++ es
             /\ forall a hr, principal a = true -> In (Call a hr) es ->
                  In a (setup_calls pf (current_file_path_ (plug w)))).
  { destruct (worker_step_launched pf w Ht) as [es [H|H]].
    - destruct H as (Hl & _ & _ & _ & _ & _ & Hcalls & _).
      exists es. split; [ exact Hl | ].
      intros a hr Hp Hin. rewrite <- Hcalls. eauto using principal_calls_In.
    - destruct H as (Hl & _ & _ & _ & _ & _ & Hpre & _).
      exists (es ++ [StoreIsRecording false]). split; [ exact Hl | ].
      intros a hr Hp Hin. eapply setup_call_is_listed; eauto. }
  destruct Hlisted as (es & Hl & Hin). exists es. split; [ exact Hl | ].
  split; [ | split ].
  - intros t hr H.
    pose proof (Hin (SetCurrentMediaType t) hr eq_refl H) as Hc.
    listed_call Hc.
  - intros url attrs hr H.
    pose proof (Hin (MFCreateSinkWriterFromURL url attrs) hr eq_refl H) as Hc.
    assert (Hurl : url = c_str (StringToWString pf (current_file_path_ (plug w)))
                   /\ attrs = SUCCEEDED (hresult pf (MFCreateAttributes
                                                      pSinkAttributes)))
      by listed_call Hc.
    destruct Hurl as [-> ->].
    split; [ reflexivity | ]. split; [ apply c_str_no_nul | ].
    split; [ apply c_str_whole | reflexivity ].
  - intros streamIndex t hr H.
    pose proof (Hin (SetInputMediaType streamIndex t) hr eq_refl H) as Hc.
    listed_call Hc.
Qed.

Lemma setup_call_arguments_witness :
  exists es,
    log (worker_step healthy (started "out.m4a"))
    = log (started "out.m4a") ++ es
    /\ (forall url attrs hr,
           In (Call (MFCreateSinkWriterFromURL url attrs) hr) es ->
           url = wide "out.m4a")
    /\ forall streamIndex t hr,
        In (Call (SetInputMediaType streamIndex t) hr) es ->
        streamIndex = 0 /\ t = pcm_44100_16_mono.
Proof.
  destruct (setup_call_arguments healthy (started "out.m4a") eq_refl)
    as (es & Hl & _ & Hurl & H).
  exists es. split; [ exact Hl | ]. split; [ | exact H ].
  intros url attrs hr Hin.
  destruct (Hurl url attrs hr Hin) as (-> & _). vm_compute. reflexivity.
Defined.

(** A path with a NUL in it reaches the sink writer cut at the NUL. *)
Example path_is_cut_at_nul :
  let path := String.append "a" (String Ascii.zero "b") in
  StringToWString healthy path = [97; 0; 98]
  /\ In (Call (MFCreateSinkWriterFromURL [97] true) S_OK)
        (log (worker_step healthy (started path))).
Proof.
  cbv zeta. split; [ vm_compute; reflexivity | ].
  apply (nth_error_In _ 24). vm_compute. reflexivity.
Qed.

(** ** What the worker writes *)

Lemma worker_step_only_clears pf w :
  is_recording_ (plug (worker_step pf w)) = true ->
  is_recording_ (plug w) = true.
Proof.
  destruct (recording_thread_ (plug w)) as [| |streamIndex i j|] eqn:Ht.
  - unfold worker_step. now rewrite Ht.
  - destruct (worker_step_launched pf w Ht) as [es [H|H]].
    + destruct H as (_ & _ & _ & _ & Hrec & _). congruence.
    + destruct H as (_ & _ & _ & _ & Hrec & _). congruence.
  - rewrite (worker_step_at_loop_head pf w _ _ _ Ht).
    destruct w as [p l]. cbn [plug log] in *.
    destruct (stop_requested_ p) eqn:Hstop.
    + rewrite (iteration_stop _ _ _ _ _ _ Hstop).
      destruct (after_loop_effect pf p (l ++ [StopFlagRead true])) as (es & -> & _).
      cbn. auto.
    + rewrite (iteration_go _ _ _ _ _ _ Hstop). cbv zeta.
      repeat match goal with
             | |- context [if ?b then _ else _] => destruct b
             | |- context [match read_sample ?a ?b with _ => _ end] =>
                 destruct (read_sample a b)
             end;
        try match goal with
            | |- context [after_loop pf (mkWorld p ?l0)] =>
                destruct (after_loop_effect pf p l0) as (es & -> & _)
            end;
        cbn; auto.
  - unfold worker_step. now rewrite Ht.
Qed.

Lemma worker_steps_only_clear pf k w :
  is_recording_ (plug (worker_steps pf k w)) = true ->
  is_recording_ (plug w) = true.
Proof.
  induction k as [|k IH]; [ auto | ].
  rewrite worker_steps_S. intros H. apply IH.
  now apply (worker_step_only_clears pf).
Qed.

(** X11.  The worker's writes.  However many quanta the worker runs, it never
    writes [current_file_path_] or [stop_requested_], it never sets
    [is_recording_] (it can only clear it), and it only adds to the log. *)
Theorem worker_writes_only_its_own_fields (pf : Platform) (k : nat) (w : world) :
  current_file_path_ (plug (worker_steps pf k w)) = current_file_path_ (plug w)
  /\ stop_requested_ (plug (worker_steps pf k w)) = stop_requested_ (plug w)
  /\ (is_recording_ (plug (worker_steps pf k w)) = true ->
      is_recording_ (plug w) = true)
  /\ exists es, log (worker_steps pf k w) = log w ++ es.
Proof.
  destruct (worker_steps_kept pf k w) as (Hp & Hs & _ & Hl).
  repeat split; auto. apply (worker_steps_only_clear pf k).
Qed.

(** * The window's styles *)

Lemma testbit_disjoint a b n :
  Z.land a b = 0 -> Z.testbit a n && Z.testbit b n = false.
Proof. intros H. rewrite <- Z.land_spec, H. apply Z.bits_0. Qed.

Lemma has_bits_lor x m : has_bits (Z.lor x m) m.
Proof.
  unfold has_bits. apply Z.bits_inj'. intros n _.
  rewrite Z.land_spec, Z.lor_spec.
  destruct (Z.testbit x n), (Z.testbit m n); reflexivity.
Qed.

Lemma has_bits_bit x m n :
  has_bits x m -> Z.testbit m n = true -> Z.testbit x n = true.
Proof.
  unfold has_bits. intros H Hm.
  apply (f_equal (fun z => Z.testbit z n)) in H.
  rewrite Z.land_spec, Hm in H. now apply andb_true_iff in H.
Qed.

Lemma has_bits_lor_l x y m : has_bits x m -> has_bits (Z.lor x y) m.
Proof.
  intros H. unfold has_bits. apply Z.bits_inj'. intros n _.
  rewrite Z.land_spec, Z.lor_spec.
  destruct (Z.testbit m n) eqn:Hm; [ | apply andb_false_r ].
  now rewrite (has_bits_bit x m n H Hm).
Qed.

Lemma has_bits_clear x m c :
  has_bits x m -> Z.land m c = 0 -> has_bits (Z.land x (Z.lnot c)) m.
Proof.
  intros H Hd. unfold has_bits. apply Z.bits_inj'. intros n Hn.
  rewrite !Z.land_spec, Z.lnot_spec by assumption.
  pose proof (testbit_disjoint m c n Hd) as Hb.
  destruct (Z.testbit m n) eqn:Hm; [ | apply andb_false_r ].
  rewrite (has_bits_bit x m n H Hm).
  destruct (Z.testbit c n); [ discriminate | reflexivity ].
Qed.

Lemma lacks_bits_clear x m : lacks_bits (Z.land x (Z.lnot m)) m.
Proof.
  unfold lacks_bits. apply Z.bits_inj'. intros n Hn.
  rewrite !Z.land_spec, Z.lnot_spec, Z.bits_0 by assumption.
  destruct (Z.testbit x n), (Z.testbit m n); reflexivity.
Qed.


Lemma same_outside_set x m : same_outside m x (Z.lor x m).
Proof.
  intros n _ Hm. rewrite Z.lor_spec, Hm. apply orb_false_r.
Qed.

Lemma same_outside_clear x m : same_outside m x (Z.land x (Z.lnot m)).
Proof.
  intros n [Hn _] Hm. rewrite Z.land_spec, Z.lnot_spec, Hm by assumption.
  apply andb_true_r.
Qed.

Lemma same_outside_trans m1 m2 x y z :
  same_outside m1 x y -> same_outside m2 y z -> same_outside (Z.lor m1 m2) x z.
Proof.
  intros H1 H2 n Hn Hm. rewrite Z.lor_spec in Hm.
  apply orb_false_iff in Hm as [Ha Hb].
  rewrite (H2 n Hn Hb). now apply H1.
Qed.

Lemma same_outside_refl m x : same_outside m x x.
Proof. intros n _ _. reflexivity. Qed.

(** X12.  What [SetClickThroughEnabled] leaves.  On a window with a handle,
    whatever the state before (the cached flag is not consulted): the
    flag and the cache are both [enabled], the transparent bit is set
    exactly when [enabled], the layered bit is set, the other style bits
    and the window style are untouched. *)
Theorem click_through_is_what_was_asked (timer_id : Z) (enabled : bool)
        (w : FlutterWindow) :
  hwnd w = true ->
  let w' := SetClickThroughEnabled timer_id enabled w in
  click_through_enabled_ w' = enabled
  /\ is_transparent_ w' = enabled
  /\ transparency_in_sync w'
  /\ has_bits (window_ex_style w') WS_EX_LAYERED
  /\ same_outside (Z.lor WS_EX_LAYERED WS_EX_TRANSPARENT)
                  (window_ex_style w) (window_ex_style w')
  /\ window_style w' = window_style w.
Proof.
  intros Hh. unfold SetClickThroughEnabled, transparency_in_sync.
  rewrite Hh. cbn [negb].
  destruct enabled;
    cbn [click_through_enabled_ is_transparent_ window_ex_style window_style];
    (split; [ reflexivity | ]); (split; [ reflexivity | ]);
    (split; [ | split; [ | split; [ | reflexivity ] ] ]).
  - apply has_bits_lor.
  - apply has_bits_lor_l, has_bits_lor.
  - eapply same_outside_trans; apply same_outside_set.
  - apply lacks_bits_clear.
  - apply has_bits_clear; [ apply has_bits_lor | reflexivity ].
  - eapply same_outside_trans;
      [ apply same_outside_set | apply same_outside_clear ].
Qed.

Lemma click_through_is_what_was_asked_witness :
  let w := mkWindow true WS_OVERLAPPEDWINDOW WS_EX_TRANSPARENT false 0 false 0 false in
  transparency_in_sync (SetClickThroughEnabled 1 false w)
  /\ has_bits (window_ex_style (SetClickThroughEnabled 1 false w)) WS_EX_LAYERED.
Proof.
  cbv zeta.
  pose proof (click_through_is_what_was_asked 1 false
                (mkWindow true WS_OVERLAPPEDWINDOW WS_EX_TRANSPARENT
                          false 0 false 0 false) eq_refl) as H.
  cbv zeta in H. split; apply H.
Defined.

Lemma lacks_bits_lor x y m :
  lacks_bits x m -> Z.land y m = 0 -> lacks_bits (Z.lor x y) m.
Proof.
  unfold lacks_bits. intros Hx Hy. apply Z.bits_inj'. intros n _.
  apply (f_equal (fun z => Z.testbit z n)) in Hx.
  apply (f_equal (fun z => Z.testbit z n)) in Hy.
  rewrite Z.land_spec, Z.bits_0 in Hx, Hy.
  rewrite Z.land_spec, Z.lor_spec, Z.bits_0.
  destruct (Z.testbit x n), (Z.testbit y n), (Z.testbit m n);
    cbn in *; congruence.
Qed.

Lemma lacks_bits_land x y m : lacks_bits x m -> lacks_bits (Z.land x y) m.
Proof.
  unfold lacks_bits. intros Hx. apply Z.bits_inj'. intros n _.
  apply (f_equal (fun z => Z.testbit z n)) in Hx.
  rewrite Z.land_spec, Z.bits_0 in Hx.
  rewrite !Z.land_spec, Z.bits_0.
  destruct (Z.testbit x n), (Z.testbit y n), (Z.testbit m n);
    cbn in *; congruence.
Qed.

Lemma same_outside_weaken m m' x y :
  same_outside m x y ->
  (forall n, Z.testbit m n = true -> Z.testbit m' n = true) ->
  same_outside m' x y.
Proof.
  intros H Hsub n Hn Hm'. apply H; [ assumption | ].
  destruct (Z.testbit m n) eqn:Hm; [ | reflexivity ].
  rewrite (Hsub n Hm) in Hm'. discriminate.
Qed.

(** X13.  The poll timer.  As long as [SetTimer] answers 0 or the
    identifier it was given, 1: if the window's timer runs exactly when the
    window remembers one, that stays so under every operation of the
    window; disabling click-through on a window with a handle leaves no
    timer; and enabling it while a timer is remembered starts no second
    one.  The code hands [KillTimer] what [SetTimer] answered, not the
    identifier 1 it asked for: if [SetTimer] answers some [other_id],
    neither 0 nor 1, disabling click-through forgets the timer and leaves
    it running. *)
Theorem poll_timer_discipline (timer_id other_id : Z) (w : FlutterWindow) :
  timer_id = 0 \/ timer_id = 1 ->
  timer_in_sync w ->
  (forall enabled, timer_in_sync (SetClickThroughEnabled timer_id enabled w))
  /\ timer_in_sync (RestoreNormalWindowStyle w)
  /\ (forall frameless, timer_in_sync (SetFrameless frameless w))
  /\ (forall d, timer_in_sync (UpdateTransparencyForMousePosition d w))
  /\ (hwnd w = true ->
      mouse_poll_timer_ (SetClickThroughEnabled timer_id false w) = 0
      /\ timer_running (SetClickThroughEnabled timer_id false w) = false)
  /\ (mouse_poll_timer_ w <> 0 ->
      mouse_poll_timer_ (SetClickThroughEnabled timer_id true w)
      = mouse_poll_timer_ w
      /\ timer_running (SetClickThroughEnabled timer_id true w)
         = timer_running w)
  /\ (other_id <> 0 -> other_id <> 1 ->
      hwnd w = true -> mouse_poll_timer_ w = 0 ->
      let w1 := SetClickThroughEnabled other_id true w in
      let w2 := SetClickThroughEnabled timer_id false w1 in
      timer_running w1 = true /\ mouse_poll_timer_ w1 = other_id
      /\ timer_running w2 = true /\ mouse_poll_timer_ w2 = 0).
Proof.
  unfold timer_in_sync. intros Hid [Hsync Hrange].
  split; [ | split; [ | split; [ | split; [ | split; [ | split ] ] ] ] ].
  - intros enabled. unfold SetClickThroughEnabled, SetTimer, KillTimer.
    destruct (hwnd w); cbn [negb]; [ | exact (conj Hsync Hrange) ].
    destruct enabled; cbn [timer_running mouse_poll_timer_];
      rewrite Hsync;
      destruct Hrange as [-> | ->], Hid as [-> | ->]; cbn; auto.
  - unfold RestoreNormalWindowStyle.
    destruct (hwnd w); exact (conj Hsync Hrange).
  - intros frameless. unfold SetFrameless.
    destruct (hwnd w); exact (conj Hsync Hrange).
  - intros d. unfold UpdateTransparencyForMousePosition, with_ex_style.
    repeat match goal with
           | |- context [if ?b then _ else _] => destruct b
           end; exact (conj Hsync Hrange).
  - intros Hh. unfold SetClickThroughEnabled, KillTimer. rewrite Hh.
    cbn [negb timer_running mouse_poll_timer_]. rewrite Hsync.
    destruct Hrange as [-> | ->]; cbn; auto.
  - intros Hne. apply Z.eqb_neq in Hne. unfold SetClickThroughEnabled.
    destruct (hwnd w); cbn [negb]; [ | split; reflexivity ].
    cbn [timer_running mouse_poll_timer_]. rewrite Hne. split; reflexivity.
  - intros Hne0 Hne1 Hh Hnone. cbv zeta.
    apply Z.eqb_neq in Hne0, Hne1.
    unfold SetClickThroughEnabled, SetTimer, KillTimer. rewrite Hh.
    cbn [negb hwnd timer_running mouse_poll_timer_].
    rewrite Hnone. cbn [Z.eqb andb]. rewrite Hne0, Hne1. cbn [negb orb].
    auto.
Qed.

Lemma poll_timer_discipline_witness :
  let w := mkWindow true 0 0 false 0 false 0 false in
  (mouse_poll_timer_
     (SetClickThroughEnabled 1 false (SetClickThroughEnabled 1 true w)) = 0
   /\ timer_running
        (SetClickThroughEnabled 1 false (SetClickThroughEnabled 1 true w))
      = false)
  /\ (timer_running
        (SetClickThroughEnabled 1 false (SetClickThroughEnabled 7 true w))
      = true
      /\ mouse_poll_timer_
           (SetClickThroughEnabled 1 false (SetClickThroughEnabled 7 true w))
         = 0).
Proof.
  cbv zeta. split.
  - apply (poll_timer_discipline 1 7
             (SetClickThroughEnabled 1 true
                (mkWindow true 0 0 false 0 false 0 false)));
      [ right; reflexivity | split; [ reflexivity | right; reflexivity ]
      | reflexivity ].
  - pose proof (poll_timer_discipline 1 7
                  (mkWindow true 0 0 false 0 false 0 false)
                  (or_intror eq_refl) (conj eq_refl (or_introl eq_refl)))
      as (_ & _ & _ & _ & _ & _ & H).
    specialize (H ltac:(discriminate) ltac:(discriminate) eq_refl eq_refl).
    cbv zeta in H. destruct H as (_ & _ & Hr & Ht). split; assumption.
Defined.

(** X14.  The poll follows the cursor.  With a handle, click-through enabled
    and the cache in sync, one poll leaves the window transparent exactly
    when the cursor is not both inside the window rectangle and in the
    85-pixel strip; the cache stays in sync and nothing but the layered
    and transparent bits and the cache is written. *)
Theorem poll_follows_the_cursor (d : Desktop) (w : FlutterWindow) :
  hwnd w = true ->
  click_through_enabled_ w = true ->
  transparency_in_sync w ->
  let w' := UpdateTransparencyForMousePosition d w in
  is_transparent_ w' = negb (mouseInWindow d && in_visible_strip d)
  /\ transparency_in_sync w'
  /\ same_outside (Z.lor WS_EX_LAYERED WS_EX_TRANSPARENT)
                  (window_ex_style w) (window_ex_style w')
  /\ w' = with_ex_style (window_ex_style w') (is_transparent_ w') w.
Proof.
  intros Hh He Hsync. unfold UpdateTransparencyForMousePosition.
  rewrite Hh, He. cbn [negb orb]. unfold transparency_in_sync in *.
  destruct (mouseInWindow d && in_visible_strip d);
    destruct (is_transparent_ w) eqn:Htr;
    cbn [negb with_ex_style is_transparent_ window_ex_style];
    rewrite ?Htr;
    (split; [ reflexivity | ]);
    (split; [ | split ]);
    try exact Hsync;
    try apply same_outside_refl;
    try (destruct w; cbn in *; subst; reflexivity).
  - apply lacks_bits_clear.
  - eapply same_outside_trans;
      [ apply same_outside_set | apply same_outside_clear ].
  - apply has_bits_lor.
  - eapply same_outside_trans; apply same_outside_set.
Qed.

Lemma poll_follows_the_cursor_witness :
  let d := mkDesktop 500 50 100 0 600 400 495 0 500 in
  let w := SetClickThroughEnabled 1 true
             (mkWindow true 0 0 false 0 false 0 false) in
  is_transparent_ (UpdateTransparencyForMousePosition d w) = false.
Proof.
  cbv zeta.
  apply (poll_follows_the_cursor
           (mkDesktop 500 50 100 0 600 400 495 0 500)
           (SetClickThroughEnabled 1 true
              (mkWindow true 0 0 false 0 false 0 false)));
    reflexivity.
Defined.

(** X15.  Callbacks after disabling.  Once [SetClickThroughEnabled(false)] has
    run, a timer callback that was still pending changes nothing, whatever
    the cursor does; nor does a callback that finds no window. *)
Theorem late_timer_callbacks_are_blocked (timer_id : Z) (d : Desktop)
        (w : FlutterWindow) :
  MousePollTimerProc d (Some (SetClickThroughEnabled timer_id false w))
  = Some (SetClickThroughEnabled timer_id false w)
  /\ MousePollTimerProc d None = None.
Proof.
  split; [ | reflexivity ].
  unfold MousePollTimerProc, SetClickThroughEnabled.
  destruct (hwnd w) eqn:Hh; cbn [negb click_through_enabled_].
  - reflexivity.
  - destruct (click_through_enabled_ w); [ | reflexivity ].
    unfold UpdateTransparencyForMousePosition. now rewrite Hh.
Qed.



Lemma lacks_bits_sub x m t : lacks_bits x m -> has_bits m t -> lacks_bits x t.
Proof.
  unfold lacks_bits. intros Hx Ht. apply Z.bits_inj'. intros n _.
  apply (f_equal (fun z => Z.testbit z n)) in Hx.
  rewrite Z.land_spec, Z.bits_0 in Hx |- *.
  destruct (Z.testbit t n) eqn:Hb; [ | apply andb_false_r ].
  rewrite (has_bits_bit m t n Ht Hb) in Hx. exact Hx.
Qed.

Lemma frame_of_restore_within_frame_of_removal n :
  Z.testbit (Z.lor (Z.lor (Z.lor WS_CAPTION WS_MINIMIZEBOX) WS_MAXIMIZEBOX)
                   WS_SYSMENU) n = true ->
  Z.testbit (Z.lor (Z.lor (Z.lor (Z.lor WS_CAPTION WS_THICKFRAME)
                                 WS_MINIMIZEBOX) WS_MAXIMIZEBOX)
                   WS_SYSMENU) n = true.
Proof.
  rewrite !Z.lor_spec.
  destruct (Z.testbit WS_CAPTION n), (Z.testbit WS_THICKFRAME n),
    (Z.testbit WS_MINIMIZEBOX n), (Z.testbit WS_MAXIMIZEBOX n),
    (Z.testbit WS_SYSMENU n); cbn; auto.
Qed.

(** X17.  Frameless and back.  [SetFrameless(true)] clears caption, thick
    frame, minimize box, maximize box and system menu and sets
    [WS_POPUP].  [SetFrameless(false)] after it clears [WS_POPUP] and sets
    caption, minimize box, maximize box and system menu again, but not the
    thick frame, which stays clear whatever it was at first.  No other
    style bit and no extended style bit is touched by either. *)
Theorem frameless_and_back (w : FlutterWindow) :
  hwnd w = true ->
  let removed :=
    Z.lor (Z.lor (Z.lor (Z.lor WS_CAPTION WS_THICKFRAME) WS_MINIMIZEBOX)
                 WS_MAXIMIZEBOX) WS_SYSMENU in
  let restored :=
    Z.lor (Z.lor (Z.lor WS_CAPTION WS_MINIMIZEBOX) WS_MAXIMIZEBOX) WS_SYSMENU in
  let w1 := SetFrameless true w in
  let w2 := SetFrameless false w1 in
  has_bits (window_style w1) WS_POPUP
  /\ lacks_bits (window_style w1) removed
  /\ same_outside (Z.lor removed WS_POPUP) (window_style w) (window_style w1)
  /\ has_bits (window_style w2) restored
  /\ lacks_bits (window_style w2) WS_POPUP
  /\ lacks_bits (window_style w2) WS_THICKFRAME
  /\ same_outside (Z.lor removed WS_POPUP) (window_style w) (window_style w2)
  /\ window_ex_style w2 = window_ex_style w.
Proof.
  intros Hh. cbv zeta. unfold SetFrameless. rewrite Hh.
  cbn [hwnd negb window_style window_ex_style].
  set (removed := Z.lor (Z.lor (Z.lor (Z.lor WS_CAPTION WS_THICKFRAME)
                                      WS_MINIMIZEBOX) WS_MAXIMIZEBOX)
                        WS_SYSMENU).
  set (restored := Z.lor (Z.lor (Z.lor WS_CAPTION WS_MINIMIZEBOX)
                                WS_MAXIMIZEBOX) WS_SYSMENU).
  set (s := window_style w).
  assert (H1 : lacks_bits (Z.lor (Z.land s (Z.lnot removed)) WS_POPUP) removed)
    by (apply lacks_bits_lor; [ apply lacks_bits_clear | reflexivity ]).
  assert (Hs1 : same_outside (Z.lor removed WS_POPUP) s
                  (Z.lor (Z.land s (Z.lnot removed)) WS_POPUP))
    by (eapply same_outside_trans;
        [ apply same_outside_clear | apply same_outside_set ]).
  split; [ apply has_bits_lor | ].
  split; [ exact H1 | ].
  split; [ exact Hs1 | ].
  split; [ apply has_bits_lor | ].
  split; [ apply lacks_bits_lor; [ apply lacks_bits_clear | reflexivity ] | ].
  split.
  { apply lacks_bits_lor; [ | reflexivity ].
    apply lacks_bits_land.
    apply (lacks_bits_sub _ removed); [ exact H1 | ].
    unfold removed. do 3 apply has_bits_lor_l. apply has_bits_lor. }
  split; [ | reflexivity ].
  eapply same_outside_weaken.
  - eapply same_outside_trans; [ exact Hs1 | ].
    eapply same_outside_trans;
      [ apply same_outside_clear | apply same_outside_set ].
  - intros n. rewrite !(Z.lor_spec _ _ n).
    intros H. fold restored in H.
    pose proof (frame_of_restore_within_frame_of_removal n) as Hsub.
    fold restored removed in Hsub.
    rewrite <- !(Z.lor_spec _ _ n).
    rewrite Z.lor_spec.
    destruct (Z.testbit removed n), (Z.testbit WS_POPUP n),
      (Z.testbit restored n); cbn in *; auto.
Qed.

Lemma frameless_and_back_witness :
  lacks_bits
    (window_style
       (SetFrameless false
          (SetFrameless true
             (mkWindow true WS_OVERLAPPEDWINDOW 0 false 0 false 0 false))))
    WS_THICKFRAME.
Proof.
  pose proof (frameless_and_back
                (mkWindow true WS_OVERLAPPEDWINDOW 0 false 0 false 0 false)
                eq_refl) as H.
  cbv zeta in H. apply H.
Defined.

(** X18.  No window handle.  While [GetHandle()] is null none of the four
    operations, and so no call through the method channel, changes
    anything. *)
Theorem without_a_handle_nothing_happens (timer_id : Z) (d : Desktop)
        (method : string) (arguments : option EncodableValue)
        (w : FlutterWindow) :
  hwnd w = false ->
  (forall enabled, SetClickThroughEnabled timer_id enabled w = w)
  /\ RestoreNormalWindowStyle w = w
  /\ (forall frameless, SetFrameless frameless w = w)
  /\ UpdateTransparencyForMousePosition d w = w
  /\ snd (window_method_call timer_id method arguments w) = w.
Proof.
  intros Hh.
  assert (H1 : forall enabled, SetClickThroughEnabled timer_id enabled w = w)
    by (intros; unfold SetClickThroughEnabled; now rewrite Hh).
  assert (H2 : RestoreNormalWindowStyle w = w)
    by (unfold RestoreNormalWindowStyle; now rewrite Hh).
  assert (H3 : forall frameless, SetFrameless frameless w = w)
    by (intros; unfold SetFrameless; now rewrite Hh).
  repeat split; auto.
  - unfold UpdateTransparencyForMousePosition. now rewrite Hh.
  - unfold window_method_call.
    repeat match goal with
           | |- context [if ?b then _ else _] => destruct b
           | |- context [match ?a with _ => _ end] => destruct a
           end; cbn [snd]; auto.
Qed.

Lemma without_a_handle_nothing_happens_witness :
  SetFrameless true (mkWindow false 0 0 false 0 false 0 false)
  = mkWindow false 0 0 false 0 false 0 false.
Proof.
  apply (without_a_handle_nothing_happens 1
           (mkDesktop 0 0 0 0 0 0 0 0 0) "setFrameless" None
           (mkWindow false 0 0 false 0 false 0 false) eq_refl).
Defined.

(** X19.  The window channel checks its argument.  [setClickThroughEnabled]
    and [setFrameless] with anything but a boolean argument, a missing one
    included, answer [INVALID_ARGS] and leave the window alone; with a
    boolean they answer success and apply it.  A method name other than
    the three known ones is [NotImplemented] and changes nothing. *)
Theorem window_channel_arguments (timer_id : Z) (method : string)
        (arguments : option EncodableValue) (w : FlutterWindow) :
  (method = "setClickThroughEnabled" \/ method = "setFrameless" ->
   (forall b, arguments <> Some (EncBool b)) ->
   window_method_call timer_id method arguments w
   = (Error "INVALID_ARGS" "Expected boolean argument", w))
  /\ (forall b,
         window_method_call timer_id "setClickThroughEnabled"
                            (Some (EncBool b)) w
         = (Success EncNull, SetClickThroughEnabled timer_id b w)
         /\ window_method_call timer_id "setFrameless" (Some (EncBool b)) w
            = (Success EncNull, SetFrameless b w))
  /\ (method <> "setClickThroughEnabled" ->
      method <> "restoreNormalWindowStyle" ->
      method <> "setFrameless" ->
      window_method_call timer_id method arguments w = (NotImplemented, w)).
Proof.
  split; [ | split ].
  - intros [-> | ->] Hnot; unfold window_method_call;
      cbn [String.eqb Ascii.eqb Bool.eqb andb];
      destruct arguments as [[|b| | | |]|]; try reflexivity;
      now destruct (Hnot b).
  - intros b. split; reflexivity.
  - intros H1%String.eqb_neq H2%String.eqb_neq H3%String.eqb_neq.
    unfold window_method_call. now rewrite H1, H2, H3.
Qed.

Lemma window_channel_arguments_witness :
  window_method_call 1 "setFrameless" (Some (EncString "yes"))
                     (mkWindow true 0 0 false 0 false 0 false)
  = (Error "INVALID_ARGS" "Expected boolean argument",
     mkWindow true 0 0 false 0 false 0 false).
Proof.
  apply (proj1 (window_channel_arguments 1 "setFrameless"
                  (Some (EncString "yes"))
                  (mkWindow true 0 0 false 0 false 0 false)));
    [ now right | discriminate ].
Defined.
